(** * Virtuoso-AI: the two Freepik job scripts

    [1_edit_image.py] and [1_gen_video.py] are straight-line scripts: they
    download a reference picture, submit a job with [requests.post], poll the
    job's status every two seconds until it reads [COMPLETED] or the timeout
    has passed, and download the first generated file next to the script.

    The scripts are embedded as one program over an explicit world: the world
    answers every HTTP request, says how long requests and sleeps take, and
    owns the disk.  A run yields its exit status, the timed log of everything
    the process did, and the final files. *)

From Stdlib Require Import ZArith NArith Lia.
From Stdlib.Strings Require Import Byte.
From stdpp Require Import base gmap list strings.

Local Open Scope Z_scope.
Set Warnings "-register-all".

(** ** Values decoded from response bodies *)

(** What [response.json()] returns: the Python value of a JSON document.
    [JObj] is the decoded dict, read by first match on the key; [JNum]
    stands for any number, which the scripts never look into. *)
Inductive json : Type :=
| JNull
| JBool (b : bool)
| JNum (n : Z)
| JStr (s : string)
| JArr (items : list json)
| JObj (fields : list (string * json)).

(** The Python exceptions the scripts can meet; none is ever caught. *)
Inductive exn : Type :=
| NameError
| JSONDecodeError
| KeyError
| TypeError
| IndexError
| AttributeError
| RequestException
| OSError.

Fixpoint assoc (k : string) (kv : list (string * json)) : option json :=
  match kv with
  | [] => None
  | (k', v) :: rest => if String.eqb k k' then Some v else assoc k rest
  end.

(** [v[k]] for a string key [k]: only a dict can be indexed by a string. *)
Definition getitem (v : json) (k : string) : exn + json :=
  match v with
  | JObj kv => match assoc k kv with
               | Some x => inr x
               | None => inl KeyError
               end
  | _ => inl TypeError
  end.

(** [v == s] for a string literal [s]: false for every value that is not a
    string. *)
Definition py_eq_str (v : json) (s : string) : bool :=
  match v with
  | JStr s' => String.eqb s' s
  | _ => false
  end.

(** A byte [10xxxxxx], which goes on a character begun before it. *)
Definition is_continuation (c : Ascii.ascii) : bool :=
  match c with
  | Ascii.Ascii _ _ _ _ _ _ b6 b7 => b7 && negb b6
  end.

Definition goes_on (s : string) : bool :=
  match s with
  | String c _ => is_continuation c
  | EmptyString => false
  end.

(** The characters of a [str], held here in UTF-8: indexing and iterating a
    Python string go by code point, so the bytes of one character stay
    together. *)
Fixpoint chars_of (s : string) : list string :=
  match s with
  | EmptyString => []
  | String c r =>
      match goes_on r, chars_of r with
      | true, u :: us => String c u :: us
      | _, us => String c EmptyString :: us
      end
  end.

(** [[u for u in g if u.startswith(pre)]]: iterating a list gives its items,
    a string its characters, a dict its keys; anything else is not iterable,
    and an item that is not a string has no [startswith]. *)
Fixpoint keep_prefixed (pre : string) (items : list json) : exn + list string :=
  match items with
  | [] => inr []
  | JStr u :: rest =>
      match keep_prefixed pre rest with
      | inr us => inr (if String.prefix pre u then u :: us else us)
      | inl e => inl e
      end
  | _ :: _ => inl AttributeError
  end.

Definition comprehension (pre : string) (g : json) : exn + list string :=
  match g with
  | JArr items => keep_prefixed pre items
  | JStr s => keep_prefixed pre (JStr <$> chars_of s)
  | JObj kv => keep_prefixed pre ((fun f => JStr (fst f)) <$> kv)
  | _ => inl TypeError
  end.

(** [l[0]] on a Python list. *)
Definition first_of {A} (l : list A) : exn + A :=
  match l with
  | x :: _ => inr x
  | [] => inl IndexError
  end.

(** [g[0]] on a decoded value: a dict decoded from JSON has string keys only,
    so the key [0] is never there. *)
Definition getitem0 (g : json) : exn + json :=
  match g with
  | JArr items => first_of items
  | JStr s => first_of (JStr <$> chars_of s)
  | JObj _ => inl KeyError
  | _ => inl TypeError
  end.

(** ** HTTP *)

Record Response := {
  status_code : Z;
  content : list byte;          (* [response.content] *)
  decoded : option json         (* [response.json()]; [None] when it raises *)
}.

Definition response_json (r : Response) : exn + json :=
  match decoded r with
  | Some v => inr v
  | None => inl JSONDecodeError
  end.

(** A field of the submitted payload.  [PBase64 c] is
    [base64.b64encode(c).decode("utf-8")]. *)
Inductive pvalue : Type :=
| PStr (s : string)
| PBase64 (c : list byte)
| PBool (b : bool)
| PList (items : list pvalue).

(** The three calls the scripts make.  [PostJob] and [GetStatus] carry the
    [x-freepik-api-key] header; [GetStatus base task_id] asks for the URL
    [f"{base}/{task_id}"]; [GetUrl] sends no header. *)
Inductive request : Type :=
| PostJob (url : string) (payload : list (string * pvalue))
| GetStatus (base : string) (task_id : json)
| GetUrl (url : string).

Inductive reply : Type :=
| Reply (r : Response)
| Fails (e : exn).

(** ** The world *)

(** What [with open(file_name, "wb") as f: f.write(data)] meets: a healthy
    disk, an [open] that is refused, or a disk with room for [room] more
    bytes. *)
Inductive disk : Type :=
| Healthy
| OpenRefused
| Full (room : nat).

(** Clock readings are in milliseconds.  Requests and sleeps never take
    negative time: a request takes [latency], a [time.sleep(d)] takes [d]
    seconds and [oversleep] more. *)
Record World := {
  boot : Z;
  serve : nat -> request -> reply;
  latency : nat -> N;
  oversleep : nat -> N;
  current_dir : string;
  storage : disk;
  fs0 : gmap string (list byte)
}.

Inductive message : Type :=
| MsgReference
| MsgWaiting (status : json)
| MsgStatusError (code : Z)
| MsgTimeout
| MsgCompleted
| MsgSaved (file_name : string)
| MsgDownloadFailed (code : Z)
| MsgSubmitError (code : Z) (msg : json).

Inductive event : Type :=
| EPrint (m : message)
| ESleep (secs : Z)
| ETime
| ERequest (q : request) (a : reply)
| EWrite (path : string) (data : list byte).

(** The log pairs each event with the clock reading when it completed. *)
Record Proc := {
  now : Z;
  nreq : nat;
  nsleep : nat;
  log : list (Z * event);
  fs : gmap string (list byte)
}.

Inductive result (A : Type) : Type :=
| Done (a : A)
| Raised (e : exn)
| Starved.
Arguments Done {A} a.
Arguments Raised {A} e.
Arguments Starved {A}.

Definition M (A : Type) : Type := Proc -> result A * Proc.

Definition ret {A} (a : A) : M A := fun p => (Done a, p).

Definition bind {A B} (m : M A) (k : A -> M B) : M B := fun p =>
  match m p with
  | (Done a, p') => k a p'
  | (Raised e, p') => (Raised e, p')
  | (Starved, p') => (Starved, p')
  end.

Definition raise {A} (e : exn) : M A := fun p => (Raised e, p).

Definition starve {A} : M A := fun p => (Starved, p).

Definition lift {A} (x : exn + A) : M A :=
  match x with
  | inr a => ret a
  | inl e => raise e
  end.

Notation "x <- m ;; k" := (bind m (fun x => k))
  (at level 100, m at next level, right associativity).
Notation "m ;; k" := (bind m (fun _ => k))
  (at level 100, right associativity).

Definition seconds (s : Z) : Z := s * 1000.

Definition record (e : event) (t : Z) (p : Proc) : list (Z * event) :=
  log p ++ [(t, e)].

Definition print (m : message) : M unit := fun p =>
  (Done tt,
   {| now := now p; nreq := nreq p; nsleep := nsleep p;
      log := record (EPrint m) (now p) p; fs := fs p |}).

Definition time_time : M Z := fun p =>
  (Done (now p),
   {| now := now p; nreq := nreq p; nsleep := nsleep p;
      log := record ETime (now p) p; fs := fs p |}).

Section Primitives.

Variable w : World.

Definition time_sleep (secs : Z) : M unit := fun p =>
  let t := now p + seconds secs + Z.of_N (oversleep w (nsleep p)) in
  (Done tt,
   {| now := t; nreq := nreq p; nsleep := S (nsleep p);
      log := record (ESleep secs) t p; fs := fs p |}).

Definition requests (q : request) : M Response := fun p =>
  let a := serve w (nreq p) q in
  let t := now p + Z.of_N (latency w (nreq p)) in
  let p' := {| now := t; nreq := S (nreq p); nsleep := nsleep p;
               log := record (ERequest q a) t p; fs := fs p |} in
  match a with
  | Reply r => (Done r, p')
  | Fails e => (Raised e, p')
  end.

(** [with open(path, "wb") as f: f.write(data)].  Opening truncates the
    file; on a full disk the bytes that fitted stay in it. *)
Definition write_file (path : string) (data : list byte) : M unit := fun p =>
  match storage w with
  | Healthy =>
      (Done tt,
       {| now := now p; nreq := nreq p; nsleep := nsleep p;
          log := record (EWrite path data) (now p) p;
          fs := <[path := data]> (fs p) |})
  | OpenRefused => (Raised OSError, p)
  | Full room =>
      let kept := take room data in
      (if decide (length data ≤ room)%nat then Done tt else Raised OSError,
       {| now := now p; nreq := nreq p; nsleep := nsleep p;
          log := record (EWrite path kept) (now p) p;
          fs := <[path := kept]> (fs p) |})
  end.

End Primitives.

(** ** The scripts *)

Inductive script : Type :=
| edit_image      (* 1_edit_image.py *)
| gen_video.      (* 1_gen_video.py *)

Definition API_URL (s : script) : string :=
  match s with
  | edit_image => "https://api.freepik.com/v1/ai/gemini-2-5-flash-image-preview"
  | gen_video => "https://api.freepik.com/v1/ai/image-to-video/minimax-hailuo-02-768p"
  end.

(** [timeout], in seconds. *)
Definition timeout (s : script) : Z :=
  match s with
  | edit_image => 300
  | gen_video => 600
  end.

Definition START_FRAME_URL : string :=
  "https://img.b2bpic.net/premium-photo/portrait-smiling-senior-woman-blue-vintage-convertible_220770-28364.jpg".

Definition IMAGE_REFERENCE_URL : string := START_FRAME_URL.

Definition END_FRAME_URL : string :=
  "https://blogger.googleusercontent.com/img/b/R29vZ2xl/AVvXsEi9s5NJqu665FVCKamxzvtGpXehW_5YuSsrBHddWPQtRhuaRFQCTwxva1zZs9fuDT-kzKAxeDvhP9_8dZz2lj0gCFJ54dcRCxTneIJWkfQxo14cE3wGeV3pJ51fFrwNs0S_Z_mw8epSqisA/s1600/african_american_rideshare_driver.jpg".

(** The picture each script downloads before it builds its payload. *)
Definition reference_url (s : script) : string :=
  match s with
  | edit_image => IMAGE_REFERENCE_URL
  | gen_video => END_FRAME_URL
  end.

Definition payload (s : script) (b64 : list byte) : list (string * pvalue) :=
  match s with
  | edit_image =>
      [("prompt", PStr "put a the hat in the head of the woman");
       ("reference_images",
        PList [PBase64 b64;
               PStr "https://shop.rydercup.com/cdn/shop/files/RYDRMH0120_C_2048x.jpg?v=1752179506"])]
  | gen_video =>
      [("first_frame_image", PStr START_FRAME_URL);
       ("last_frame_image", PBase64 b64);
       ("prompt", PStr "An old woman is driving a car and suddenly the camera moves to another car in which a black woman is driving");
       ("prompt_optimizer", PBool true);
       ("duration", PStr "6")]
  end.

Definition artifact_name (s : script) : string :=
  match s with
  | edit_image => "generated_image.jpg"
  | gen_video => "generated_video.mp4"
  end.

(** [os.path.join(d, name)] for a relative [name]. *)
Definition path_join (d name : string) : string :=
  if String.eqb d "" then name
  else if String.eqb (String.substring (String.length d - 1) 1 d) "/"
       then d +:+ name
       else d +:+ "/" +:+ name.

(** The sleep of the polling loop, in seconds. *)
Definition interval : Z := 2.

(** The variables the polling loop reads and writes. *)
Record Loop := {
  response : Response;
  status : json;
  generation_ok : bool
}.

Inductive flow : Type :=
| Continue (l : Loop)
| Break (l : Loop).

Section Script.

Variable s : script.
Variable w : World.

(** [response.json()["data"][field]] *)
Definition data_field (r : Response) (field : string) : exn + json :=
  match response_json r with
  | inr j => match getitem j "data" with
             | inr d => getitem d field
             | inl e => inl e
             end
  | inl e => inl e
  end.

(** [response.json()['message']] *)
Definition message_of (r : Response) : exn + json :=
  match response_json r with
  | inr j => getitem j "message"
  | inl e => inl e
  end.

(** One pass through the body of [while status != "COMPLETED"]. *)
Definition tick (start_time : Z) (task_id : json) (l : Loop) : M flow :=
  print (MsgWaiting (status l)) ;;
  time_sleep w interval ;;
  response <- requests w (GetStatus (API_URL s) task_id) ;;
  status <- (if status_code response =? 200
             then lift (data_field response "status")
             else print (MsgStatusError (status_code response)) ;;
                  time_sleep w 2 ;;
                  ret (status l)) ;;
  t <- time_time ;;
  if seconds (timeout s) <? t - start_time
  then print MsgTimeout ;;
       ret (Break {| response := response; status := status;
                     generation_ok := false |})
  else ret (Continue {| response := response; status := status;
                        generation_ok := generation_ok l |}).

Fixpoint while_loop (fuel : nat) (start_time : Z) (task_id : json)
    (l : Loop) : M Loop :=
  if negb (py_eq_str (status l) "COMPLETED")
  then match fuel with
       | O => starve
       | S fuel' =>
           f <- tick start_time task_id l ;;
           match f with
           | Continue l' => while_loop fuel' start_time task_id l'
           | Break l' => ret l'
           end
       end
  else ret l.

(** The URL the artifact is read from: [1_edit_image.py] keeps the entries
    that start with [https://] and takes the first, [1_gen_video.py] takes
    the first entry as it is.  A value that is not a string is no URL for
    [requests.get]. *)
Definition select_url (r : Response) : exn + string :=
  match data_field r "generated" with
  | inl e => inl e
  | inr g =>
      match s with
      | edit_image =>
          match comprehension "https://" g with
          | inr us => first_of us
          | inl e => inl e
          end
      | gen_video =>
          match getitem0 g with
          | inr (JStr u) => inr u
          | inr _ => inl RequestException
          | inl e => inl e
          end
      end
  end.

Definition file_name : string := path_join (current_dir w) (artifact_name s).

(** The body of [if generation_ok:]. *)
Definition download (r : Response) : M unit :=
  print MsgCompleted ;;
  url <- lift (select_url r) ;;
  img_response <- requests w (GetUrl url) ;;
  if status_code img_response =? 200
  then write_file w file_name (content img_response) ;;
       print (MsgSaved file_name)
  else print (MsgDownloadFailed (status_code img_response)).

(** The body of [if response.status_code == 200:] after the submission. *)
Definition follow (fuel : nat) (start_time : Z) (r : Response) : M unit :=
  task_id <- lift (data_field r "task_id") ;;
  status <- lift (data_field r "status") ;;
  l <- while_loop fuel start_time task_id
         {| response := r; status := status; generation_ok := true |} ;;
  if generation_ok l then download (response l) else ret tt.

(** The [else] branch of the submission. *)
Definition report (r : Response) : M unit :=
  msg <- lift (message_of r) ;;
  print (MsgSubmitError (status_code r) msg).

(** The script up to the submission.  The base64 variable is bound only
    when the reference picture came back with 200; the payload reads it.
    The result is [start_time] and the response of the [requests.post]. *)
Definition submit : M (Z * Response) :=
  response <- requests w (GetUrl (reference_url s)) ;;
  b64 <- (if status_code response =? 200
          then print MsgReference ;; ret (Some (content response))
          else ret None) ;;
  payload <- match b64 with
             | Some c => ret (payload s c)
             | None => raise NameError
             end ;;
  start_time <- time_time ;;
  response <- requests w (PostJob (API_URL s) payload) ;;
  ret (start_time, response).

(** The whole script. *)
Definition main (fuel : nat) : M unit :=
  x <- submit ;;
  if status_code x.2 =? 200
  then follow fuel x.1 x.2
  else report x.2.

End Script.

(** ** Runs *)

Definition start (w : World) : Proc :=
  {| now := boot w; nreq := 0; nsleep := 0; log := []; fs := fs0 w |}.

(** Passes of the loop that fit in the timeout: each one sleeps for at
    least [interval]. *)
Definition budget (s : script) : nat := S (Z.to_nat (timeout s / interval)).
Arguments budget : simpl never.

Record Outcome := {
  ending : result unit;
  trace : list (Z * event);
  files : gmap string (list byte)
}.

Definition run (s : script) (w : World) : Outcome :=
  let x := main s w (budget s) (start w) in
  {| ending := fst x; trace := log (snd x); files := fs (snd x) |}.

(** The exit status of the interpreter: 0 when the script runs to its end,
    1 when an exception is not caught. *)
Definition exit_status (o : Outcome) : option Z :=
  match ending o with
  | Done _ => Some 0
  | Raised _ => Some 1
  | Starved => None
  end.

(** ** Reading a log *)

Definition is_status_query (e : event) : bool :=
  match e with
  | ERequest (GetStatus _ _) _ => true
  | _ => false
  end.

Definition status_queries (tr : list (Z * event)) : nat :=
  length (List.filter (λ x, is_status_query x.2) tr).

Definition write_of (e : event) : option (string * list byte) :=
  match e with
  | EWrite f d => Some (f, d)
  | _ => None
  end.

Definition writes (tr : list (Z * event)) : list (string * list byte) :=
  omap (λ x, write_of x.2) tr.

Definition printed (m : message) (tr : list (Z * event)) : Prop :=
  ∃ t, (t, EPrint m) ∈ tr.

(** What the polling loop can log. *)
Definition polling (x : Z * event) : Prop :=
  match x.2 with
  | EPrint (MsgWaiting _) | EPrint (MsgStatusError _) | EPrint MsgTimeout => True
  | ESleep _ | ETime => True
  | ERequest (GetStatus _ _) _ => True
  | _ => False
  end.


(** ** One pass of the loop, by its clock readings *)

Definition extend (p : Proc) (t : Z) (nr ns : nat)
    (evs : list (Z * event)) : Proc :=
  {| now := t; nreq := nr; nsleep := ns; log := log p ++ evs; fs := fs p |}.

(** The clock of a pass started in [p]: after the sleep, after the status
    query, and after the second sleep of the error branch. *)
Definition woke (w : World) (p : Proc) : Z :=
  now p + seconds interval + Z.of_N (oversleep w (nsleep p)).

Definition answered (w : World) (p : Proc) : Z :=
  woke w p + Z.of_N (latency w (nreq p)).

Definition rested (w : World) (p : Proc) : Z :=
  answered w p + seconds 2 + Z.of_N (oversleep w (S (nsleep p))).

Definition status_query (s : script) (task_id : json) : request :=
  GetStatus (API_URL s) task_id.

(** What every pass logs first, and what the error branch adds. *)
Definition asked (s : script) (w : World) (task_id : json) (l : Loop)
    (p : Proc) : list (Z * event) :=
  [(now p, EPrint (MsgWaiting (status l)));
   (woke w p, ESleep interval);
   (answered w p,
    ERequest (status_query s task_id) (serve w (nreq p) (status_query s task_id)))].

Definition excused (w : World) (r : Response) (p : Proc) : list (Z * event) :=
  [(answered w p, EPrint (MsgStatusError (status_code r)));
   (rested w p, ESleep 2)].

(** The end of a pass: the clock is read as [t] and compared. *)
Definition checked (s : script) (start_time t : Z) (l : Loop) (p : Proc)
    (nr ns : nat) (evs : list (Z * event)) : result flow * Proc :=
  if seconds (timeout s) <? t - start_time
  then (Done (Break {| response := response l; status := status l;
                       generation_ok := false |}),
        extend p t nr ns (evs ++ [(t, ETime); (t, EPrint MsgTimeout)]))
  else (Done (Continue l), extend p t nr ns (evs ++ [(t, ETime)])).

(** ** What the loop guarantees *)

(** The response that let the loop leave with [COMPLETED]: either no pass
    ran, or a status query logged in [evs] and answered within the timeout. *)
Definition seen (s : script) (start_time : Z) (task_id : json) (l0 l : Loop)
    (evs : list (Z * event)) : Prop :=
  (l = l0 ∧ evs = []) ∨
  (∃ t, (t, ERequest (status_query s task_id) (Reply (response l))) ∈ evs ∧
        status_code (response l) = 200 ∧
        data_field (response l) "status" = inr (status l) ∧
        t - start_time ≤ seconds (timeout s)).

Definition loop_verdict (s : script) (start_time : Z) (task_id : json)
    (l0 : Loop) (x : result Loop) (p : Proc) (evs : list (Z * event)) : Prop :=
  match x with
  | Done l =>
      (generation_ok l = true ∧ py_eq_str (status l) "COMPLETED" = true ∧
       ¬ printed MsgTimeout evs ∧ seen s start_time task_id l0 l evs) ∨
      (generation_ok l = false ∧ printed MsgTimeout evs ∧
       seconds (timeout s) < now p - start_time)
  | Raised _ => ¬ printed MsgTimeout evs
  | Starved => True
  end.

Definition loop_post (s : script) (start_time : Z) (task_id : json)
    (l0 : Loop) (p0 : Proc) (x : result Loop) (p : Proc) : Prop :=
  ∃ evs, log p = log p0 ++ evs ∧ fs p = fs p0 ∧ now p0 ≤ now p ∧
         Forall polling evs ∧ loop_verdict s start_time task_id l0 x p evs.

Definition loop_inv (s : script) (start_time : Z) (task_id : json)
    (l0 : Loop) (p0 : Proc) (l : Loop) (p : Proc) : Prop :=
  generation_ok l = true ∧
  ∃ evs, log p = log p0 ++ evs ∧ fs p = fs p0 ∧ now p0 ≤ now p ∧
         Forall polling evs ∧ ¬ printed MsgTimeout evs ∧
         (py_eq_str (status l) "COMPLETED" = true →
          seen s start_time task_id l0 l evs).

(** ** The shapes of a run *)

(** What the script can log up to the submission. *)
Definition submitting (x : Z * event) : Prop :=
  match x.2 with
  | ERequest (GetUrl _) _ | ERequest (PostJob _ _) _ => True
  | EPrint MsgReference | ETime => True
  | _ => False
  end.

Definition finish (x : result unit * Proc) : Outcome :=
  {| ending := x.1; trace := log x.2; files := fs x.2 |}.

(** The ways the download block can go, from the state [p] in which it
    starts with the last response [r] of the loop. *)
Inductive fetched (s : script) (w : World) (r : Response) (p : Proc) :
    result unit * Proc → Prop :=
| FetchNoUrl e :
    select_url s r = inl e →
    fetched s w r p
      (Raised e,
       extend p (now p) (nreq p) (nsleep p) [(now p, EPrint MsgCompleted)])
| FetchUnreachable url e t :
    select_url s r = inr url →
    serve w (nreq p) (GetUrl url) = Fails e →
    t = now p + Z.of_N (latency w (nreq p)) →
    fetched s w r p
      (Raised e,
       extend p t (S (nreq p)) (nsleep p)
         [(now p, EPrint MsgCompleted); (t, ERequest (GetUrl url) (Fails e))])
| FetchDeclined url r' t :
    select_url s r = inr url →
    serve w (nreq p) (GetUrl url) = Reply r' →
    status_code r' ≠ 200 →
    t = now p + Z.of_N (latency w (nreq p)) →
    fetched s w r p
      (Done tt,
       extend p t (S (nreq p)) (nsleep p)
         [(now p, EPrint MsgCompleted); (t, ERequest (GetUrl url) (Reply r'));
          (t, EPrint (MsgDownloadFailed (status_code r')))])
| FetchSaved url r' t :
    select_url s r = inr url →
    serve w (nreq p) (GetUrl url) = Reply r' →
    status_code r' = 200 →
    (storage w = Healthy ∨
     ∃ room, storage w = Full room ∧ (length (content r') ≤ room)%nat) →
    t = now p + Z.of_N (latency w (nreq p)) →
    fetched s w r p
      (Done tt,
       {| now := t; nreq := S (nreq p); nsleep := nsleep p;
          log := log p ++
            [(now p, EPrint MsgCompleted); (t, ERequest (GetUrl url) (Reply r'));
             (t, EWrite (file_name s w) (content r'));
             (t, EPrint (MsgSaved (file_name s w)))];
          fs := <[file_name s w := content r']> (fs p) |})
| FetchRefused url r' t :
    select_url s r = inr url →
    serve w (nreq p) (GetUrl url) = Reply r' →
    status_code r' = 200 →
    storage w = OpenRefused →
    t = now p + Z.of_N (latency w (nreq p)) →
    fetched s w r p
      (Raised OSError,
       extend p t (S (nreq p)) (nsleep p)
         [(now p, EPrint MsgCompleted); (t, ERequest (GetUrl url) (Reply r'))])
| FetchTruncated url r' t room :
    select_url s r = inr url →
    serve w (nreq p) (GetUrl url) = Reply r' →
    status_code r' = 200 →
    storage w = Full room → (room < length (content r'))%nat →
    t = now p + Z.of_N (latency w (nreq p)) →
    fetched s w r p
      (Raised OSError,
       {| now := t; nreq := S (nreq p); nsleep := nsleep p;
          log := log p ++
            [(now p, EPrint MsgCompleted); (t, ERequest (GetUrl url) (Reply r'));
             (t, EWrite (file_name s w) (take room (content r')))];
          fs := <[file_name s w := take room (content r')]> (fs p) |}).

Definition crashed (e : exn) (p : Proc) : Outcome :=
  {| ending := Raised e; trace := log p; files := fs p |}.

(** Every run of a script has one of these shapes. *)
Inductive ran (s : script) (w : World) : Outcome → Prop :=
| RanUnsubmitted e p :
    submit s w (start w) = (Raised e, p) →
    ran s w (crashed e p)
| RanRejectedBadly t0 r p e :
    submit s w (start w) = (Done (t0, r), p) →
    status_code r ≠ 200 → message_of r = inl e →
    ran s w (crashed e p)
| RanRejected t0 r p msg :
    submit s w (start w) = (Done (t0, r), p) →
    status_code r ≠ 200 → message_of r = inr msg →
    ran s w {| ending := Done tt;
               trace := log p ++ [(now p, EPrint (MsgSubmitError (status_code r) msg))];
               files := fs p |}
| RanNoJob t0 r p e :
    submit s w (start w) = (Done (t0, r), p) →
    status_code r = 200 →
    (data_field r "task_id" = inl e ∨
     (∃ id, data_field r "task_id" = inr id) ∧ data_field r "status" = inl e) →
    ran s w (crashed e p)
| RanPollCrashed t0 r p id st e p' evs :
    submit s w (start w) = (Done (t0, r), p) →
    status_code r = 200 →
    data_field r "task_id" = inr id → data_field r "status" = inr st →
    while_loop s w (budget s) t0 id
      {| response := r; status := st; generation_ok := true |} p
      = (Raised e, p') →
    log p' = log p ++ evs → fs p' = fs p → Forall polling evs →
    ¬ printed MsgTimeout evs →
    ran s w (crashed e p')
| RanTimedOut t0 r p id st l p' evs :
    submit s w (start w) = (Done (t0, r), p) →
    status_code r = 200 →
    data_field r "task_id" = inr id → data_field r "status" = inr st →
    while_loop s w (budget s) t0 id
      {| response := r; status := st; generation_ok := true |} p
      = (Done l, p') →
    log p' = log p ++ evs → fs p' = fs p → Forall polling evs →
    generation_ok l = false → printed MsgTimeout evs →
    seconds (timeout s) < now p' - t0 →
    ran s w {| ending := Done tt; trace := log p'; files := fs p' |}
| RanCompleted t0 r p id st l p' evs x :
    submit s w (start w) = (Done (t0, r), p) →
    status_code r = 200 →
    data_field r "task_id" = inr id → data_field r "status" = inr st →
    while_loop s w (budget s) t0 id
      {| response := r; status := st; generation_ok := true |} p
      = (Done l, p') →
    log p' = log p ++ evs → fs p' = fs p → Forall polling evs →
    generation_ok l = true → py_eq_str (status l) "COMPLETED" = true →
    ¬ printed MsgTimeout evs →
    seen s t0 id {| response := r; status := st; generation_ok := true |} l evs →
    fetched s w (response l) p' x →
    ran s w (finish x).


(** ** What a log shows *)

(** [response.json()["data"]["status"] == "COMPLETED"] on a 200 response. *)
Definition reports_completed (r : Response) : bool :=
  (status_code r =? 200) &&
  match data_field r "status" with
  | inr st => py_eq_str st "COMPLETED"
  | inl _ => false
  end.

(** The clock readings at which the process was told [COMPLETED], by the
    submission or by a status query. *)
Definition completed_at (x : Z * event) : option Z :=
  match x.2 with
  | ERequest (PostJob _ _) (Reply r) | ERequest (GetStatus _ _) (Reply r) =>
      if reports_completed r then Some x.1 else None
  | _ => None
  end.

Definition completions (tr : list (Z * event)) : list Z := omap completed_at tr.

(** No [COMPLETED] was seen until the timeout had passed. *)
Definition completed_late (s : script) (t0 : Z) (tr : list (Z * event)) : Prop :=
  Forall (λ t, seconds (timeout s) < t - t0) (completions tr).

(** The location [url] is the one the script selects from a response in
    the log, to the submission or to a status query, that said [COMPLETED]
    with code 200. *)
Definition selected_from (s : script) (tr : list (Z * event)) (url : string) :
    Prop :=
  ∃ t q r, (t, ERequest q (Reply r)) ∈ tr ∧
           match q with GetUrl _ => False | _ => True end ∧
           reports_completed r = true ∧
           select_url s r = inr url.

(** ** Worlds for the examples *)

Definition ok_json (j : json) : Response :=
  {| status_code := 200; content := []; decoded := Some j |}.

Definition ok_bytes (c : list byte) : Response :=
  {| status_code := 200; content := c; decoded := None |}.

Definition error_json (code : Z) (j : json) : Response :=
  {| status_code := code; content := []; decoded := Some j |}.

Definition job_body (id st : string) (generated : list json) : json :=
  JObj [("data", JObj [("task_id", JStr id); ("status", JStr st);
                       ("generated", JArr generated)])].

(** The world that answers the [n]-th request with the [n]-th reply, whatever
    is asked, after the [n]-th latency; sleeps are exact. *)
Definition scripted (replies : list reply) (lat : list N) : World :=
  {| boot := 0;
     serve := λ n _, nth n replies (Fails RequestException);
     latency := λ n, nth n lat 0%N;
     oversleep := λ _, 0%N;
     current_dir := "/srv/app";
     storage := Healthy;
     fs0 := ∅ |}.

Definition picture : list byte := [x89; x50; x4e; x47].

(** The submission takes 301 s and its response already says [COMPLETED]. *)
Definition slow_submission : World :=
  scripted
    [Reply (ok_bytes picture);
     Reply (ok_json (job_body "abc123" "COMPLETED" [JStr "https://x/y.jpg"]));
     Reply (ok_bytes picture)]
    [0%N; 301000%N].

(** The first status query takes 299 s and says [COMPLETED]. *)
Definition slow_query : World :=
  scripted
    [Reply (ok_bytes picture);
     Reply (ok_json (job_body "abc123" "IN_PROGRESS" []));
     Reply (ok_json (job_body "abc123" "COMPLETED" [JStr "https://x/y.jpg"]));
     Reply (ok_bytes picture)]
    [0%N; 0%N; 299000%N].

(** The submission response already says [COMPLETED]. *)
Definition done_at_once : World :=
  scripted
    [Reply (ok_bytes picture);
     Reply (ok_json (job_body "abc123" "COMPLETED" [JStr "https://x/y.jpg"]));
     Reply (ok_bytes picture)]
    [].

(** When each status query was answered, and with which code (0 for an
    exception). *)
Definition query_of (x : Z * event) : option (Z * Z) :=
  match x.2 with
  | ERequest (GetStatus _ _) (Reply r) => Some (x.1, status_code r)
  | ERequest (GetStatus _ _) (Fails _) => Some (x.1, 0)
  | _ => None
  end.

Definition query_log (tr : list (Z * event)) : list (Z * Z) := omap query_of tr.

(** The first status query meets a 500, the next two are answered. *)
Definition flaky : World :=
  scripted
    [Reply (ok_bytes picture);
     Reply (ok_json (job_body "abc123" "IN_PROGRESS" []));
     Reply (error_json 500 (JObj [("message", JStr "Internal Server Error")]));
     Reply (ok_json (job_body "abc123" "IN_PROGRESS" []));
     Reply (ok_json (job_body "abc123" "COMPLETED" [JStr "https://x/y.jpg"]));
     Reply (ok_bytes picture)]
    [].

(** Two status queries in a row meet a 502. *)
Definition two_errors : World :=
  scripted
    [Reply (error_json 502 JNull); Reply (error_json 502 JNull)] [].

Definition in_progress : Loop :=
  {| response := ok_json (job_body "abc123" "IN_PROGRESS" []);
     status := JStr "IN_PROGRESS";
     generation_ok := true |}.

(** The provider says [FAILED], then [COMPLETED]. *)
Definition failed_then_done : World :=
  scripted
    [Reply (ok_bytes picture);
     Reply (ok_json (job_body "abc123" "IN_PROGRESS" []));
     Reply (ok_json (job_body "abc123" "FAILED" []));
     Reply (ok_json (job_body "abc123" "COMPLETED" [JStr "https://x/y.jpg"]));
     Reply (ok_bytes picture)]
    [].

(** The provider says [FAILED] once. *)
Definition says_failed : World :=
  scripted [Reply (ok_json (job_body "abc123" "FAILED" []))] [].

(** The waits between one answer and the next. *)
Fixpoint gaps (ts : list Z) : list Z :=
  match ts with
  | a :: (b :: _) as rest => (b - a) :: gaps rest
  | _ => []
  end.

(** The script has gone past the two assignments that read the job: it has
    printed that it waits, or that the job is completed. *)
Definition past_submission (tr : list (Z * event)) : Prop :=
  printed MsgCompleted tr ∨ ∃ st, printed (MsgWaiting st) tr.

(** The submission takes 299 s; the only status query meets a 500. *)
Definition late_error : World :=
  scripted
    [Reply (ok_bytes picture);
     Reply (ok_json (job_body "abc123" "IN_PROGRESS" []));
     Reply (error_json 500 JNull)]
    [0%N; 299000%N].

(** The submission takes 301 s; the job is in progress. *)
Definition late_entry : World :=
  scripted
    [Reply (ok_bytes picture);
     Reply (ok_json (job_body "abc123" "IN_PROGRESS" []));
     Reply (ok_json (job_body "abc123" "IN_PROGRESS" []))]
    [0%N; 301000%N].

(** The provider hands out an empty task id. *)
Definition empty_id : World :=
  scripted
    [Reply (ok_bytes picture);
     Reply (ok_json (job_body "" "IN_PROGRESS" []));
     Reply (ok_json (job_body "" "COMPLETED" [JStr "https://x/y.jpg"]));
     Reply (ok_bytes picture)]
    [].

(** The three failures a script reports before it ends. *)
Definition reported_failure (tr : list (Z * event)) : Prop :=
  (∃ code msg, printed (MsgSubmitError code msg) tr) ∨
  printed MsgTimeout tr ∨
  (∃ code, printed (MsgDownloadFailed code) tr).

(** The submission is refused with a 401. *)
Definition refused : World :=
  scripted
    [Reply (ok_bytes picture);
     Reply (error_json 401 (JObj [("message", JStr "Invalid API key")]))]
    [].

(** The job completes at the second status query and the file is served. *)
Definition smooth : World :=
  scripted
    [Reply (ok_bytes picture);
     Reply (ok_json (job_body "abc123" "IN_PROGRESS" []));
     Reply (ok_json (job_body "abc123" "IN_PROGRESS" []));
     Reply (ok_json (job_body "abc123" "COMPLETED" [JStr "https://x/y.jpg"]));
     Reply (ok_bytes picture)]
    [].

(** The download is answered with 200 and an empty body. *)
Definition empty_download : World :=
  scripted
    [Reply (ok_bytes picture);
     Reply (ok_json (job_body "abc123" "COMPLETED" [JStr "https://x/y.jpg"]));
     Reply (ok_bytes [])]
    [].

(** The download is answered with a 404. *)
Definition missing_download : World :=
  scripted
    [Reply (ok_bytes picture);
     Reply (ok_json (job_body "abc123" "COMPLETED" [JStr "https://x/y.jpg"]));
     Reply (error_json 404 JNull)]
    [].

(** The scenario of the specification: the submission is accepted for job
    [abc123] in progress; the status queries are answered [IN_PROGRESS],
    [IN_PROGRESS], then [COMPLETED] with the one location
    [https://x/y.jpg]; the download of that location brings [data], which is
    not empty; the disk is healthy and the third answer comes within the
    timeout. *)
Definition three_answers (s : script) (w : World) (data : list byte) : Prop :=
  ∃ t0 r p r1 r2 r3 r4,
    submit s w (start w) = (Done (t0, r), p) ∧
    status_code r = 200 ∧
    data_field r "task_id" = inr (JStr "abc123") ∧
    data_field r "status" = inr (JStr "IN_PROGRESS") ∧
    serve w 2 (status_query s (JStr "abc123")) = Reply r1 ∧
    status_code r1 = 200 ∧
    data_field r1 "status" = inr (JStr "IN_PROGRESS") ∧
    serve w 3 (status_query s (JStr "abc123")) = Reply r2 ∧
    status_code r2 = 200 ∧
    data_field r2 "status" = inr (JStr "IN_PROGRESS") ∧
    serve w 4 (status_query s (JStr "abc123")) = Reply r3 ∧
    status_code r3 = 200 ∧
    data_field r3 "status" = inr (JStr "COMPLETED") ∧
    data_field r3 "generated" = inr (JArr [JStr "https://x/y.jpg"]) ∧
    serve w 5 (GetUrl "https://x/y.jpg") = Reply r4 ∧
    status_code r4 = 200 ∧
    content r4 = data ∧ data ≠ [] ∧
    storage w = Healthy ∧
    now p + 3 * seconds interval +
      Z.of_N (oversleep w 0 + oversleep w 1 + oversleep w 2) +
      Z.of_N (latency w 2 + latency w 3 + latency w 4) - t0
      ≤ seconds (timeout s).

Definition three_polls : World :=
  scripted
    [Reply (ok_bytes picture);
     Reply (ok_json (job_body "abc123" "IN_PROGRESS" []));
     Reply (ok_json (job_body "abc123" "IN_PROGRESS" []));
     Reply (ok_json (job_body "abc123" "IN_PROGRESS" []));
     Reply (ok_json (job_body "abc123" "COMPLETED" [JStr "https://x/y.jpg"]));
     Reply (ok_bytes picture)]
    [].

(** The job is completed at once with two locations, the first of them not
    one [requests] can read; plain reads of [http] and [https] locations are
    served, any other raises. *)
Definition two_locations : json :=
  job_body "abc123" "COMPLETED"
    [JStr "s3://bucket/out.bin"; JStr "https://cdn.example/out.bin"].

Definition mixed_locations : World :=
  {| boot := 0;
     serve := λ _ q,
       match q with
       | GetUrl u =>
           if String.prefix "https://" u || String.prefix "http://" u
           then Reply (ok_bytes picture)
           else Fails RequestException
       | _ => Reply (ok_json two_locations)
       end;
     latency := λ _, 0%N;
     oversleep := λ _, 0%N;
     current_dir := "/srv/app";
     storage := Healthy;
     fs0 := ∅ |}.


(** ** Further readings of a log *)

Definition is_submission (e : event) : bool :=
  match e with
  | ERequest (PostJob _ _) _ => true
  | _ => false
  end.

Definition submissions (tr : list (Z * event)) : nat :=
  length (List.filter (λ x, is_submission x.2) tr).

(** The reference picture is not there. *)
Definition no_reference : World :=
  scripted [Reply (error_json 404 JNull)] [].

Definition is_clock_read (e : event) : bool :=
  match e with
  | ETime => true
  | _ => false
  end.

(** How often a run called [time.time()]. *)
Definition clock_reads (tr : list (Z * event)) : nat :=
  length (List.filter (λ x, is_clock_read x.2) tr).

(** The events after which the script cannot go on: a request that raised,
    and a status answered with 200 in which [data.status] cannot be read. *)
Definition fatal (e : event) : option exn :=
  match e with
  | ERequest _ (Fails x) => Some x
  | ERequest (GetStatus _ _) (Reply r) =>
      if status_code r =? 200
      then match data_field r "status" with
           | inl x => Some x
           | inr _ => None
           end
      else None
  | _ => None
  end.

(** The second status query cannot be sent. *)
Definition connection_lost : World :=
  scripted
    [Reply (ok_bytes picture);
     Reply (ok_json (job_body "abc123" "IN_PROGRESS" []));
     Reply (ok_json (job_body "abc123" "IN_PROGRESS" []));
     Fails RequestException]
    [].

(** The first status query is answered with 200 and a body without [data]. *)
Definition no_data : World :=
  scripted
    [Reply (ok_bytes picture);
     Reply (ok_json (job_body "abc123" "IN_PROGRESS" []));
     Reply (ok_json (JObj [("message", JStr "ok")]))]
    [].

(** A completed job whose body has no list of results. *)
Definition no_generated : Response :=
  ok_json (JObj [("data", JObj [("task_id", JStr "abc123");
                                ("status", JStr "COMPLETED")])]).

(** A list of results in which something is not a string. *)
Definition odd_entry : Response :=
  ok_json (job_body "abc123" "COMPLETED" [JStr "https://x/y.jpg"; JNull]).

(** The submission is answered with a 502 and a body that is no JSON. *)
Definition bare_rejection : World :=
  scripted
    [Reply (ok_bytes picture);
     Reply {| status_code := 502; content := []; decoded := None |}]
    [].

(** ** What the waiting messages show *)

Definition waiting_of (e : event) : option json :=
  match e with
  | EPrint (MsgWaiting st) => Some st
  | _ => None
  end.

(** The statuses shown by the waiting messages of a log, in order. *)
Definition waitings (tr : list (Z * event)) : list json :=
  omap (λ x, waiting_of x.2) tr.

(** The value of [status] after an event, [cur] being its value before:
    only a status query answered with 200 and a readable status assigns it. *)
Definition status_after (cur : json) (e : event) : json :=
  match e with
  | ERequest (GetStatus _ _) (Reply r) =>
      if status_code r =? 200
      then match data_field r "status" with
           | inr st => st
           | inl _ => cur
           end
      else cur
  | _ => cur
  end.

(** Every waiting message of the log shows the value [status] has when it is
    printed, which is not [COMPLETED]. *)
Fixpoint waits_follow (cur : json) (tr : list (Z * event)) : Prop :=
  match tr with
  | [] => True
  | (_, e) :: tr' =>
      match waiting_of e with
      | Some st => st = cur ∧ py_eq_str st "COMPLETED" = false
      | None => True
      end ∧ waits_follow (status_after cur e) tr'
  end.

(** Events that neither show nor assign [status]. *)
Definition aside (x : Z * event) : Prop :=
  match x.2 with
  | EPrint (MsgWaiting _) | ERequest (GetStatus _ _) _ => False
  | _ => True
  end.
(** * Proofs *)

Ltac exec :=
  unfold bind, print, time_sleep, requests, time_time, write_file, ret, lift,
    raise, starve, record; simpl.

Ltac find_in :=
  repeat first [apply list_elem_of_here | apply list_elem_of_further].

Ltac in_list H :=
  repeat (apply elem_of_cons in H as [H|H]; [try discriminate H|]);
  try (apply elem_of_nil in H; destruct H).

Lemma printed_app m a b : printed m (a ++ b) ↔ printed m a ∨ printed m b.
Proof.
  unfold printed. split.
  - intros [t H]. apply elem_of_app in H as [H|H]; eauto.
  - intros [[t H]|[t H]]; exists t; apply elem_of_app; auto.
Qed.

Lemma writes_app a b : writes (a ++ b) = writes a ++ writes b.
Proof. apply omap_app. Qed.

Lemma polling_writes evs : Forall polling evs → writes evs = [].
Proof.
  induction 1 as [|[t e] evs H _ IH]; [reflexivity|].
  destruct e as [[]| | |[]|]; cbv in H; try tauto; exact IH.
Qed.

Lemma submitting_writes evs : Forall submitting evs → writes evs = [].
Proof.
  induction 1 as [|[t e] evs H _ IH]; [reflexivity|].
  destruct e as [[]| | |[]|]; cbv in H; try tauto; exact IH.
Qed.

(** ** The polling loop *)

Section Loop.

Variables (s : script) (w : World) (start_time : Z) (task_id : json).

(** The rule of the loop: an invariant [I] kept by every pass that goes on,
    and a verdict [Q] met wherever the loop can end. *)
Lemma while_rule (I : Loop → Proc → Prop) (Q : result Loop → Proc → Prop) :
  (∀ l p, I l p → py_eq_str (status l) "COMPLETED" = true → Q (Done l) p) →
  (∀ l p, I l p → py_eq_str (status l) "COMPLETED" = false →
     match tick s w start_time task_id l p with
     | (Done (Continue l'), p') => I l' p'
     | (Done (Break l'), p') => Q (Done l') p'
     | (Raised e, p') => Q (Raised e) p'
     | (Starved, p') => Q Starved p'
     end) →
  (∀ l p, I l p → Q Starved p) →
  ∀ fuel l p, I l p →
    Q (while_loop s w fuel start_time task_id l p).1
      (while_loop s w fuel start_time task_id l p).2.
Proof.
  intros Hexit Hbody Hstarve fuel.
  induction fuel as [|fuel IH]; intros l p HI; simpl;
    destruct (py_eq_str (status l) "COMPLETED") eqn:Hc; simpl; eauto.
  specialize (Hbody l p HI Hc). unfold bind.
  destruct (tick s w start_time task_id l p) as [[[l'|l']| |] p']; simpl; eauto.
Qed.

(** One pass of the loop, written out. *)
Lemma tick_eq l p :
  tick s w start_time task_id l p =
  match serve w (nreq p) (status_query s task_id) with
  | Fails e =>
      (Raised e,
       extend p (answered w p) (S (nreq p)) (S (nsleep p)) (asked s w task_id l p))
  | Reply r =>
      if status_code r =? 200
      then match data_field r "status" with
           | inl e =>
               (Raised e,
                extend p (answered w p) (S (nreq p)) (S (nsleep p))
                  (asked s w task_id l p))
           | inr st =>
               checked s start_time (answered w p)
                 {| response := r; status := st;
                    generation_ok := generation_ok l |}
                 p (S (nreq p)) (S (nsleep p)) (asked s w task_id l p)
           end
      else checked s start_time (rested w p)
             {| response := r; status := status l;
                generation_ok := generation_ok l |}
             p (S (nreq p)) (S (S (nsleep p)))
             (asked s w task_id l p ++ excused w r p)
  end.
Proof.
  unfold tick, checked, asked, excused, rested, answered, woke, status_query,
    extend; exec.
  destruct (serve w (nreq p) _) as [r|e]; simpl; rewrite <- ?app_assoc; auto.
  destruct (status_code r =? 200); simpl.
  - destruct (data_field r "status") as [e|st]; simpl; rewrite <- ?app_assoc; auto.
    destruct (_ <? _); simpl; rewrite <- ?app_assoc; auto.
  - destruct (_ <? _); simpl; rewrite <- ?app_assoc; auto.
Qed.

Lemma pass_times p :
  now p + seconds interval ≤ woke w p ∧ woke w p ≤ answered w p ∧
  answered w p + seconds 2 ≤ rested w p.
Proof. unfold rested, answered, woke. lia. Qed.

Lemma asked_polling l p : Forall polling (asked s w task_id l p).
Proof. repeat constructor. Qed.

Lemma excused_polling r p : Forall polling (excused w r p).
Proof. repeat constructor. Qed.

Lemma asked_quiet l p : ¬ printed MsgTimeout (asked s w task_id l p).
Proof. intros [t H]. unfold asked in H. in_list H. Qed.

Lemma excused_quiet r p : ¬ printed MsgTimeout (excused w r p).
Proof. intros [t H]. unfold excused in H. in_list H. Qed.

(** A loop that finds [COMPLETED] does nothing. *)
Lemma while_loop_done fuel l p :
  py_eq_str (status l) "COMPLETED" = true →
  while_loop s w fuel start_time task_id l p = (Done l, p).
Proof. intros H. destruct fuel; simpl; rewrite H; reflexivity. Qed.

(** A loop that does not, and has fuel, makes a pass. *)
Lemma while_loop_pass fuel l p :
  py_eq_str (status l) "COMPLETED" = false →
  while_loop s w (S fuel) start_time task_id l p =
  match tick s w start_time task_id l p with
  | (Done (Continue l'), p') => while_loop s w fuel start_time task_id l' p'
  | (Done (Break l'), p') => (Done l', p')
  | (Raised e, p') => (Raised e, p')
  | (Starved, p') => (Starved, p')
  end.
Proof.
  intros H. simpl. rewrite H. simpl. unfold bind.
  destruct (tick s w start_time task_id l p) as [[[l'|l']| |] p']; reflexivity.
Qed.

(** Every pass takes at least [interval] seconds, so the loop ends within
    the passes that fit in what is left of the timeout, plus one. *)
Lemma while_loop_total fuel : ∀ l p,
  (1 ≤ fuel)%nat →
  seconds (timeout s) - (now p - start_time) < Z.of_nat fuel * seconds interval →
  (while_loop s w fuel start_time task_id l p).1 ≠ Starved.
Proof.
  induction fuel as [|fuel IH]; intros l p Hfuel Hleft; [lia|].
  destruct (py_eq_str (status l) "COMPLETED") eqn:Hc.
  { rewrite while_loop_done by assumption. discriminate. }
  rewrite while_loop_pass by assumption.
  pose proof (pass_times p) as (Ht1 & Ht2 & Ht3).
  assert (Hsec : seconds interval = 2000 ∧ seconds 2 = 2000) by (split; reflexivity).
  rewrite tick_eq.
  assert (Hchecked : ∀ t l' nr ns evs, now p + seconds interval ≤ t →
    (let (r, p') := checked s start_time t l' p nr ns evs in
     match r with
     | Done (Continue l'') => while_loop s w fuel start_time task_id l'' p'
     | Done (Break l'') => (Done l'', p')
     | Raised e => (Raised e, p')
     | Starved => (Starved, p')
     end).1 ≠ Starved).
  { intros t l' nr ns evs Ht. unfold checked.
    destruct (seconds (timeout s) <? t - start_time) eqn:Hlate; [discriminate|].
    apply IH; simpl; lia. }
  destruct (serve w (nreq p) (status_query s task_id)) as [r|e]; [|discriminate].
  destruct (status_code r =? 200).
  - destruct (data_field r "status") as [e|st]; [discriminate|].
    apply Hchecked. lia.
  - apply Hchecked. lia.
Qed.

Variables (l0 : Loop) (p0 : Proc).

(** The comparison that ends a pass keeps the invariant going or gives the
    verdict. *)
Lemma checked_post t l p nr ns evs new :
  log p = log p0 ++ evs → fs p = fs p0 → now p0 ≤ t →
  Forall polling evs → Forall polling new →
  ¬ printed MsgTimeout evs → ¬ printed MsgTimeout new →
  generation_ok l = true →
  (t - start_time ≤ seconds (timeout s) →
   py_eq_str (status l) "COMPLETED" = true →
   seen s start_time task_id l0 l (evs ++ new ++ [(t, ETime)])) →
  match checked s start_time t l p nr ns new with
  | (Done (Continue l'), p') => loop_inv s start_time task_id l0 p0 l' p'
  | (Done (Break l'), p') => loop_post s start_time task_id l0 p0 (Done l') p'
  | (Raised e, p') => loop_post s start_time task_id l0 p0 (Raised e) p'
  | (Starved, p') => loop_post s start_time task_id l0 p0 Starved p'
  end.
Proof.
  intros Hlog Hfs Hnow Hpoll Hnew Hno Hquiet Hg Hseen. unfold checked.
  destruct (seconds (timeout s) <? t - start_time) eqn:Hlate.
  - exists (evs ++ new ++ [(t, ETime); (t, EPrint MsgTimeout)]). simpl.
    rewrite Hlog, <- app_assoc. repeat split; auto.
    + rewrite !Forall_app. repeat split; auto. repeat constructor.
    + right. repeat split; [|lia]. exists t. rewrite !elem_of_app.
      right; right. find_in.
  - split; auto. exists (evs ++ new ++ [(t, ETime)]). simpl.
    rewrite Hlog, <- app_assoc. repeat split; auto.
    + rewrite !Forall_app. repeat split; auto. repeat constructor.
    + rewrite !printed_app. intros [H|[H|[t' H]]]; auto. in_list H.
    + apply Hseen. lia.
Qed.

Lemma while_loop_post fuel :
  generation_ok l0 = true →
  loop_post s start_time task_id l0 p0
    (while_loop s w fuel start_time task_id l0 p0).1
    (while_loop s w fuel start_time task_id l0 p0).2.
Proof.
  intros Hok.
  apply (while_rule (loop_inv s start_time task_id l0 p0)
                    (loop_post s start_time task_id l0 p0)).
  - intros l p (Hg & evs & Hlog & Hfs & Hnow & Hpoll & Hno & Hseen) Hc.
    exists evs. repeat split; auto. left. auto.
  - intros l p (Hg & evs & Hlog & Hfs & Hnow & Hpoll & Hno & Hseen) Hc.
    pose proof (pass_times p) as (Ht1 & Ht2 & Ht3).
    pose proof (asked_polling l p) as Ha.
    pose proof (asked_quiet l p) as Hq.
    assert (Hsec : 0 ≤ seconds interval ∧ 0 ≤ seconds 2)
      by (cbv; split; discriminate).
    rewrite tick_eq.
    destruct (serve w (nreq p) (status_query s task_id)) as [r|e] eqn:Hserve.
    + destruct (status_code r =? 200) eqn:Hcode.
      * destruct (data_field r "status") as [e|st] eqn:Hst.
        -- exists (evs ++ asked s w task_id l p). simpl. rewrite Hlog, app_assoc.
           repeat split; auto;
             [lia | apply Forall_app; auto | rewrite printed_app; tauto].
        -- apply checked_post with (evs := evs); auto; [lia|].
           cbn [status response]. intros Hin Hdone.
           right. exists (answered w p). cbn [status response].
           split; [|split; [lia|split; [assumption|lia]]].
           rewrite !elem_of_app. right; left. unfold asked.
           rewrite Hserve. find_in.
      * apply checked_post with (evs := evs); auto; [lia | | |].
        -- apply Forall_app; split; auto using excused_polling.
        -- rewrite printed_app. pose proof (excused_quiet r p). tauto.
        -- simpl. congruence.
    + exists (evs ++ asked s w task_id l p). simpl. rewrite Hlog, app_assoc.
      repeat split; auto;
        [lia | apply Forall_app; auto | rewrite printed_app; tauto].
  - intros l p (Hg & evs & Hlog & Hfs & Hnow & Hpoll & Hno & Hseen).
    exists evs. repeat split; auto.
  - unfold loop_inv. split; auto. exists []. rewrite app_nil_r.
    repeat split; auto; [lia | intros [t H]; in_list H | left; auto].
Qed.

End Loop.

(** ** The download block and the whole run *)

Lemma download_cases s w r p : fetched s w r p (download s w r p).
Proof.
  unfold download; exec.
  destruct (select_url s r) as [e|url] eqn:Hurl; simpl.
  - apply FetchNoUrl; auto.
  - destruct (serve w (nreq p) (GetUrl url)) as [r'|e] eqn:Hserve; simpl.
    + destruct (status_code r' =? 200) eqn:Hcode; simpl.
      * destruct (storage w) as [| |room] eqn:Hdisk; simpl.
        -- rewrite <- !app_assoc. simpl. eapply FetchSaved; eauto. lia.
        -- rewrite <- !app_assoc. eapply FetchRefused; eauto. lia.
        -- destruct (decide (length (content r') ≤ room)%nat) as [Hfit|Hfit]; simpl.
           ++ rewrite take_ge by lia. rewrite <- !app_assoc. simpl.
              eapply FetchSaved; eauto. lia.
           ++ rewrite <- !app_assoc. simpl. eapply FetchTruncated; eauto; lia.
      * rewrite <- !app_assoc. simpl. eapply FetchDeclined; eauto. lia.
    + rewrite <- !app_assoc. simpl. eapply FetchUnreachable; eauto.
Qed.

(** The submission leaves the files alone and logs nothing but its own
    requests; the clock it returns is not ahead of the process. *)
Lemma submit_post s w :
  let x := submit s w (start w) in
  Forall submitting (log x.2) ∧ fs x.2 = fs0 w ∧ x.1 ≠ Starved ∧
  ∀ t0 r, x.1 = Done (t0, r) → t0 ≤ now x.2 ∧ nreq x.2 = 2%nat ∧ nsleep x.2 = 0%nat.
Proof.
  unfold submit; exec.
  destruct (serve w 0%nat _) as [r0|e]; simpl;
    [destruct (status_code r0 =? 200); simpl;
       [destruct (serve w 1%nat _) as [r|e]; simpl|]|];
    (split; [repeat constructor|]); (split; [reflexivity|]);
    (split; [discriminate|]); intros t0 r'; try discriminate.
  intros [= <- <-]. lia.
Qed.

Lemma budget_fits s p t0 :
  t0 ≤ now p →
  (1 ≤ budget s)%nat ∧
  seconds (timeout s) - (now p - t0) < Z.of_nat (budget s) * seconds interval.
Proof.
  intros H.
  destruct s;
    [change (budget edit_image) with 151%nat
    |change (budget gen_video) with 301%nat];
    unfold timeout, seconds, interval; lia.
Qed.

Theorem run_cases s w : ran s w (run s w).
Proof.
  pose proof (submit_post s w) as (Hsub & Hfs & Hstarved & Hclock).
  unfold run, main, bind.
  destruct (submit s w (start w)) as [[[t0 r]|e|] p] eqn:Hsubmit; cbn in *.
  - destruct (status_code r =? 200) eqn:Hcode.
    + assert (Hcode' : status_code r = 200) by lia.
      unfold follow, bind.
      destruct (data_field r "task_id") as [e|id] eqn:Hid; cbn.
      { eapply (RanNoJob s w t0 r p e); eauto. }
      destruct (data_field r "status") as [e|st] eqn:Hst; cbn.
      { eapply (RanNoJob s w t0 r p e); eauto. }
      set (l0 := {| response := r; status := st; generation_ok := true |}).
      pose proof (while_loop_post s w t0 id l0 p (budget s) eq_refl) as Hpost.
      destruct (Hclock t0 r eq_refl) as (Hclk & _).
      pose proof (budget_fits s p t0 Hclk) as [Hb1 Hb2].
      pose proof (while_loop_total s w t0 id (budget s) l0 p Hb1 Hb2) as Htotal.
      destruct (while_loop s w (budget s) t0 id l0 p) as [[l|e|] p'] eqn:Hloop;
        cbn in *; [| |congruence];
        destruct Hpost as (evs & Hlog & Hfs' & Hnow & Hpoll & Hverdict).
      * destruct Hverdict as [(Hok & Hdone & Hquiet & Hseen)|(Hok & Htimeout & Hlate)];
          rewrite Hok.
        -- eapply (RanCompleted s w t0 r p id st l p' evs); eauto.
           apply download_cases.
        -- eapply (RanTimedOut s w t0 r p id st l p' evs); eauto.
      * eapply (RanPollCrashed s w t0 r p id st e p' evs); eauto.
    + unfold report; exec. destruct (message_of r) as [e|msg] eqn:Hmsg; cbn.
      * eapply (RanRejectedBadly s w t0 r p e); eauto. lia.
      * eapply (RanRejected s w t0 r p msg); eauto. lia.
  - apply (RanUnsubmitted s w e p Hsubmit).
  - congruence.
Qed.

(** ** Reading runs *)

Ltac same_submit :=
  repeat match goal with
  | H1 : submit ?s ?w ?p = _, H2 : submit ?s ?w ?p = _ |- _ =>
      rewrite H1 in H2;
      first [discriminate H2
            | symmetry in H2; injection H2; intros; subst; clear H2]
  end;
  try congruence.

Lemma submitting_printed m tr :
  Forall submitting tr → printed m tr → m = MsgReference.
Proof.
  intros Hall [t Hin]. rewrite Forall_forall in Hall.
  specialize (Hall _ Hin). destruct m; cbv in Hall; tauto.
Qed.

Lemma polling_printed m tr :
  Forall polling tr → printed m tr →
  match m with
  | MsgWaiting _ | MsgStatusError _ | MsgTimeout => True
  | _ => False
  end.
Proof.
  intros Hall [t Hin]. rewrite Forall_forall in Hall.
  specialize (Hall _ Hin). destruct m; cbv in Hall; tauto.
Qed.

Lemma fetched_log s w r p x :
  fetched s w r p x →
  ∃ post, log x.2 = log p ++ (now p, EPrint MsgCompleted) :: post.
Proof. destruct 1; simpl; eauto. Qed.

Lemma completions_app a b : completions (a ++ b) = completions a ++ completions b.
Proof. apply omap_app. Qed.

Lemma completions_elem t q r tr :
  (t, ERequest q (Reply r)) ∈ tr →
  match q with GetUrl _ => False | _ => True end →
  reports_completed r = true →
  t ∈ completions tr.
Proof.
  intros Hin Hq Hr. unfold completions. apply list_elem_of_omap.
  exists (t, ERequest q (Reply r)). split; [assumption|].
  unfold completed_at. simpl. destruct q; try tauto; rewrite Hr; reflexivity.
Qed.

Lemma submit_facts s w t0 r p :
  submit s w (start w) = (Done (t0, r), p) →
  Forall submitting (log p) ∧ fs p = fs0 w ∧ t0 ≤ now p ∧
  nreq p = 2%nat ∧ nsleep p = 0%nat.
Proof.
  intros H. pose proof (submit_post s w) as (Hsub & Hfs & _ & Hclock).
  rewrite H in *. simpl in *. destruct (Hclock t0 r eq_refl) as (? & ? & ?).
  auto.
Qed.

Lemma unsubmitted_facts s w e p :
  submit s w (start w) = (Raised e, p) →
  Forall submitting (log p) ∧ fs p = fs0 w.
Proof.
  intros H. pose proof (submit_post s w) as (Hsub & Hfs & _ & _).
  rewrite H in *. auto.
Qed.

(** ** How the loop ends *)

Lemma while_loop_timeout_last s w t0 id fuel l0 p0 :
  generation_ok l0 = true →
  ∀ l, (while_loop s w fuel t0 id l0 p0).1 = Done l →
  generation_ok l = false →
  ∃ pre, log (while_loop s w fuel t0 id l0 p0).2
         = pre ++ [(now (while_loop s w fuel t0 id l0 p0).2, EPrint MsgTimeout)].
Proof.
  intros Hok.
  set (I := λ (l : Loop) (_ : Proc), generation_ok l = true).
  set (Q := λ (x : result Loop) (p : Proc),
         ∀ l, x = Done l → generation_ok l = false →
              ∃ pre, log p = pre ++ [(now p, EPrint MsgTimeout)]).
  apply (while_rule s w t0 id I Q); unfold I, Q; auto.
  - intros l p Hl _ l' [= <-] Hl'. congruence.
  - intros l p Hl _. rewrite tick_eq.
    assert (Hchecked : ∀ t l' nr ns evs, generation_ok l' = true →
      let (r, p') := checked s t0 t l' p nr ns evs in
      match r with
      | Done (Continue l'') => generation_ok l'' = true
      | Done (Break l'') =>
          ∀ l1, Done l'' = Done l1 → generation_ok l1 = false →
                ∃ pre, log p' = pre ++ [(now p', EPrint MsgTimeout)]
      | Raised e =>
          ∀ l1, @Raised Loop e = Done l1 → generation_ok l1 = false →
                ∃ pre, log p' = pre ++ [(now p', EPrint MsgTimeout)]
      | Starved =>
          ∀ l1, @Starved Loop = Done l1 → generation_ok l1 = false →
                ∃ pre, log p' = pre ++ [(now p', EPrint MsgTimeout)]
      end).
    { intros t l' nr ns evs Hl'. unfold checked.
      destruct (seconds (timeout s) <? t - t0); [|exact Hl'].
      intros l1 _ _. cbn [log extend now].
      exists (log p ++ evs ++ [(t, ETime)]). rewrite <- !app_assoc. reflexivity. }
    destruct (serve w (nreq p) _) as [r|e]; [|discriminate].
    destruct (status_code r =? 200).
    + destruct (data_field r "status"); [discriminate|].
      apply Hchecked. exact Hl.
    + apply Hchecked. exact Hl.
  - discriminate.
Qed.

(** A loop that raises does so at a status query: the request raised, or it
    was answered with 200 and a body in which [data.status] cannot be read;
    that request is the last thing logged. *)
Lemma while_loop_raised s w t0 id fuel l0 p0 :
  ∀ e, (while_loop s w fuel t0 id l0 p0).1 = Raised e →
  ∃ pre t a,
    log (while_loop s w fuel t0 id l0 p0).2
      = pre ++ [(t, ERequest (status_query s id) a)] ∧
    fatal (ERequest (status_query s id) a) = Some e.
Proof.
  set (Inv := λ (_ : Loop) (_ : Proc), True).
  set (Q := λ (x : result Loop) (p : Proc),
         ∀ e, x = Raised e →
           ∃ pre t a, log p = pre ++ [(t, ERequest (status_query s id) a)] ∧
                      fatal (ERequest (status_query s id) a) = Some e).
  apply (while_rule s w t0 id Inv Q); unfold Inv, Q; auto; try discriminate.
  intros l p _ _. rewrite tick_eq.
  assert (Hchecked : ∀ t l' nr ns evs,
    let (r, p') := checked s t0 t l' p nr ns evs in
    match r with
    | Done (Continue _) => True
    | Done (Break l'') =>
        ∀ e, Done l'' = Raised e →
          ∃ pre t a, log p' = pre ++ [(t, ERequest (status_query s id) a)] ∧
                     fatal (ERequest (status_query s id) a) = Some e
    | Raised x =>
        ∀ e, @Raised Loop x = Raised e →
          ∃ pre t a, log p' = pre ++ [(t, ERequest (status_query s id) a)] ∧
                     fatal (ERequest (status_query s id) a) = Some e
    | Starved =>
        ∀ e, @Starved Loop = Raised e →
          ∃ pre t a, log p' = pre ++ [(t, ERequest (status_query s id) a)] ∧
                     fatal (ERequest (status_query s id) a) = Some e
    end).
  { intros t l' nr ns evs. unfold checked.
    destruct (seconds (timeout s) <? t - t0); [discriminate|exact I]. }
  assert (Hraised : ∀ x t nr ns,
    fatal (ERequest (status_query s id)
             (serve w (nreq p) (status_query s id))) = Some x →
    ∀ e, @Raised Loop x = Raised e →
      ∃ pre t' a,
        log (extend p t nr ns (asked s w id l p))
          = pre ++ [(t', ERequest (status_query s id) a)] ∧
        fatal (ERequest (status_query s id) a) = Some e).
  { intros x t nr ns Hf e [= <-]. cbn [log extend]. unfold asked.
    exists (log p ++ [(now p, EPrint (MsgWaiting (status l)));
                      (woke w p, ESleep interval)]),
           (answered w p), (serve w (nreq p) (status_query s id)).
    rewrite <- app_assoc. split; [reflexivity|exact Hf]. }
  destruct (serve w (nreq p) (status_query s id)) as [r|x] eqn:Hserve.
  - destruct (status_code r =? 200) eqn:Hcode.
    + destruct (data_field r "status") as [x|st] eqn:Hst.
      * apply Hraised. unfold status_query. cbn. rewrite Hcode, Hst. reflexivity.
      * apply Hchecked.
    + apply Hchecked.
  - apply Hraised. reflexivity.
Qed.

Lemma status_queries_app a b :
  status_queries (a ++ b) = (status_queries a + status_queries b)%nat.
Proof. unfold status_queries. rewrite List.filter_app. apply length_app. Qed.

Lemma submitting_queries tr : Forall submitting tr → status_queries tr = 0%nat.
Proof.
  induction 1 as [|[t e] evs H _ IH]; [reflexivity|].
  destruct e as [[]| | |[]|]; cbv in H; try tauto; exact IH.
Qed.

Lemma fetched_queries s w r p x :
  fetched s w r p x → status_queries (log x.2) = status_queries (log p).
Proof.
  destruct 1; cbn [snd log extend]; rewrite status_queries_app;
    match goal with
    | |- context [status_queries (?a :: ?b)] =>
        change (status_queries (a :: b)) with 0%nat
    end; lia.
Qed.

Lemma clock_reads_app a b :
  clock_reads (a ++ b) = (clock_reads a + clock_reads b)%nat.
Proof. unfold clock_reads. rewrite List.filter_app. apply length_app. Qed.

(** The submission reads the clock once, for [start_time]. *)
Lemma submit_clock_reads s w t0 r p :
  submit s w (start w) = (Done (t0, r), p) → clock_reads (log p) = 1%nat.
Proof.
  unfold submit; exec.
  destruct (serve w 0%nat _) as [r0|e0]; simpl; [|discriminate].
  destruct (status_code r0 =? 200); simpl; [|discriminate].
  destruct (serve w 1%nat _) as [r1|e1]; simpl; [|discriminate].
  intros [= <- <- <-]. reflexivity.
Qed.

(** The download block never reads it. *)
Lemma fetched_clock_reads s w r p x :
  fetched s w r p x → clock_reads (log x.2) = clock_reads (log p).
Proof.
  destruct 1; cbn [snd log extend]; rewrite clock_reads_app;
    match goal with
    | |- context [clock_reads (?a :: ?b)] =>
        change (clock_reads (a :: b)) with 0%nat
    end; lia.
Qed.

(** ** C1: the timeout *)

(** C1, as the scripts have it.  Take a run whose submission was accepted
    with a readable status.  If that status is not [COMPLETED], so that the
    loop is entered, and no response said [COMPLETED] until more than
    [timeout] seconds had passed since [start_time], then nothing is written
    and no file changes, and the run does end: either the loop stops with
    ["Timeout reached"], printed last at a clock reading past the timeout,
    the download block skipped, whatever the last status was; or an exception
    ends the run, raised where [data.task_id] is read or at the status query
    the log ends with.  If the status is [COMPLETED] at once, the run never
    meets the timeout check: the clock is read once, for [start_time], no
    status query is sent and ["Timeout reached"] is not printed, however
    long the submission took. *)
Theorem timeout_wins s w t0 r p st :
  submit s w (start w) = (Done (t0, r), p) →
  status_code r = 200 →
  data_field r "status" = inr st →
  (py_eq_str st "COMPLETED" = false →
   completed_late s t0 (trace (run s w)) →
   writes (trace (run s w)) = [] ∧
   files (run s w) = fs0 w ∧
   ¬ printed MsgCompleted (trace (run s w)) ∧
   (exit_status (run s w) = Some 0 → printed MsgTimeout (trace (run s w))) ∧
   ((ending (run s w) = Done tt ∧
     ∃ t, last (trace (run s w)) = Some (t, EPrint MsgTimeout) ∧
          seconds (timeout s) < t - t0) ∨
    (∃ e, ending (run s w) = Raised e ∧
          ((data_field r "task_id" = inl e ∧ trace (run s w) = log p) ∨
           ∃ t ev, last (trace (run s w)) = Some (t, ev) ∧
                   is_status_query ev = true ∧ fatal ev = Some e)))) ∧
  (py_eq_str st "COMPLETED" = true →
   clock_reads (trace (run s w)) = 1%nat ∧
   status_queries (trace (run s w)) = 0%nat ∧
   ¬ printed MsgTimeout (trace (run s w))).
Proof.
  intros Hsubmit Hcode Hst.
  destruct (submit_facts _ _ _ _ _ Hsubmit) as (Hsub & Hfs & Hclock & _).
  pose proof (submit_clock_reads _ _ _ _ _ Hsubmit) as Hreads.
  assert (Hno : ∀ m, m ≠ MsgReference → ¬ printed m (log p)).
  { intros m Hm Hp. apply (submitting_printed _ _ Hsub) in Hp. congruence. }
  pose proof (run_cases s w) as Hran.
  remember (run s w) as o eqn:Ho. clear Ho.
  destruct Hran as [e p1 H1|t1 r1 p1 e H1 Hc1 Hmsg|t1 r1 p1 msg H1 Hc1 Hmsg
    |t1 r1 p1 e H1 Hc1 Hjob
    |t1 r1 p1 id st1 e p' evs H1 Hc1 Hid Hst1 Hloop Hlog Hfs' Hpoll Hquiet
    |t1 r1 p1 id st1 l p' evs H1 Hc1 Hid Hst1 Hloop Hlog Hfs' Hpoll Hok Htime Hpast
    |t1 r1 p1 id st1 l p' evs x H1 Hc1 Hid Hst1 Hloop Hlog Hfs' Hpoll Hok Hdone
       Hquiet Hseen Hfetch];
    same_submit; unfold crashed, finish, exit_status;
    cbn [ending trace files].
  - (* no job in the body *)
    assert (Hid : data_field r "task_id" = inl e).
    { destruct Hjob as [Hjob|[_ Hjob]]; [exact Hjob|congruence]. }
    split.
    + intros _ _. split; [apply submitting_writes, Hsub|].
      split; [exact Hfs|]. split; [apply Hno; discriminate|].
      split; [discriminate|]. right. exists e. split; [reflexivity|]. left. auto.
    + intros _. split; [exact Hreads|].
      split; [apply submitting_queries, Hsub|]. apply Hno. discriminate.
  - (* the loop raised *)
    assert (Hst' : st1 = st) by congruence. subst st1.
    split.
    + intros Hgoing Hlate.
      rewrite Hlog, writes_app, submitting_writes, polling_writes by assumption.
      split; [reflexivity|]. split; [congruence|]. split.
      { rewrite printed_app. intros [Hp|Hp].
        - revert Hp. apply Hno. discriminate.
        - apply (polling_printed _ _ Hpoll) in Hp. exact Hp. }
      split; [discriminate|]. right. exists e. split; [reflexivity|]. right.
      destruct (while_loop_raised s w t0 id (budget s)
                  {| response := r; status := st; generation_ok := true |} p e)
        as (pre & t & a & Hlast & Hfatal).
      { rewrite Hloop. reflexivity. }
      rewrite Hloop in Hlast. cbn [snd] in Hlast.
      exists t, (ERequest (status_query s id) a).
      rewrite <- Hlog, Hlast. split; [apply last_snoc|].
      split; [reflexivity|exact Hfatal].
    + intros Hdone. rewrite while_loop_done in Hloop by exact Hdone.
      discriminate Hloop.
  - (* the timeout *)
    assert (Hst' : st1 = st) by congruence. subst st1.
    split.
    + intros Hgoing Hlate.
      rewrite Hlog, writes_app, submitting_writes, polling_writes by assumption.
      split; [reflexivity|]. split; [congruence|]. split.
      { rewrite printed_app. intros [Hp|Hp].
        - revert Hp. apply Hno. discriminate.
        - apply (polling_printed _ _ Hpoll) in Hp. exact Hp. }
      split; [intros _; apply printed_app; auto|].
      left. split; [reflexivity|].
      pose proof (while_loop_timeout_last s w t0 id (budget s)
                    {| response := r; status := st; generation_ok := true |}
                    p eq_refl l) as Hlast.
      rewrite Hloop in Hlast. cbn [fst snd] in Hlast.
      destruct (Hlast eq_refl Hok) as [pre Hpre].
      exists (now p'). rewrite <- Hlog, Hpre. split; [apply last_snoc|exact Hpast].
    + intros Hdone. rewrite while_loop_done in Hloop by exact Hdone.
      injection Hloop as <- <-. discriminate Hok.
  - (* the download *)
    assert (Hst' : st1 = st) by congruence. subst st1.
    split.
    + intros Hgoing Hlate. exfalso.
      destruct Hseen as [[-> _]|(t & Hin & Hc & Hs & Hin_time)].
      * cbn [status] in Hdone. congruence.
      * destruct (fetched_log _ _ _ _ _ Hfetch) as [post Hx].
        unfold completed_late in Hlate. rewrite Forall_forall in Hlate.
        specialize (Hlate t). rewrite Hx, Hlog, !completions_app in Hlate.
        assert (Ht : t ∈ completions evs).
        { eapply completions_elem; [exact Hin|exact I|].
          unfold reports_completed. rewrite Hs, Hdone.
          apply andb_true_intro; split; [lia|reflexivity]. }
        specialize (Hlate ltac:(rewrite !elem_of_app; auto)). lia.
    + intros Hdone'. rewrite while_loop_done in Hloop by exact Hdone'.
      injection Hloop as <- <-.
      rewrite (fetched_clock_reads _ _ _ _ _ Hfetch),
        (fetched_queries _ _ _ _ _ Hfetch).
      split; [exact Hreads|]. split; [apply submitting_queries, Hsub|].
      assert (Hpoll0 : Forall polling []) by constructor.
      intros Hp. destruct Hfetch; cbn [snd log extend] in Hp;
        apply printed_app in Hp as [Hp|[t' Hp]];
        try (revert Hp; apply Hno; discriminate); in_list Hp.
Qed.

(** The first status query takes 299 s: its [COMPLETED] arrives 301 s after
    the start, and the run of [1_edit_image.py] ends in the timeout, printed
    last; and though the submission that says [COMPLETED] at once takes
    301 s, its run reads the clock once. *)
Lemma timeout_wins_witness :
  completions (trace (run edit_image slow_query)) = [301000] ∧
  (writes (trace (run edit_image slow_query)) = [] ∧
   files (run edit_image slow_query) = fs0 slow_query ∧
   ¬ printed MsgCompleted (trace (run edit_image slow_query)) ∧
   (exit_status (run edit_image slow_query) = Some 0 →
    printed MsgTimeout (trace (run edit_image slow_query))) ∧
   last (trace (run edit_image slow_query)) = Some (301000, EPrint MsgTimeout)) ∧
  (clock_reads (trace (run edit_image slow_submission)) = 1%nat ∧
   status_queries (trace (run edit_image slow_submission)) = 0%nat ∧
   ¬ printed MsgTimeout (trace (run edit_image slow_submission))).
Proof.
  split; [vm_compute; reflexivity|]. split.
  - destruct (timeout_wins edit_image slow_query 0
                (ok_json (job_body "abc123" "IN_PROGRESS" []))
                (submit edit_image slow_query (start slow_query)).2
                (JStr "IN_PROGRESS"))
      as [Hlate _];
      [vm_compute; reflexivity | reflexivity | vm_compute; reflexivity|].
    destruct Hlate as (Hw & Hf & Hc & Hp & _); [reflexivity| |].
    + unfold completed_late.
      replace (completions (trace (run edit_image slow_query))) with [301000]
        by (vm_compute; reflexivity).
      repeat constructor.
    + split; [exact Hw|]. split; [exact Hf|]. split; [exact Hc|].
      split; [exact Hp|]. vm_compute. reflexivity.
  - destruct (timeout_wins edit_image slow_submission 0
                (ok_json (job_body "abc123" "COMPLETED" [JStr "https://x/y.jpg"]))
                (submit edit_image slow_submission (start slow_submission)).2
                (JStr "COMPLETED"))
      as [_ Honce];
      [vm_compute; reflexivity | reflexivity | vm_compute; reflexivity|].
    exact (Honce eq_refl).
Defined.

(** C1 as it is written fails when the submission itself outlasts the
    timeout and its response already says [COMPLETED]: the loop, and with it
    the only timeout check, is never entered, and the file is written. *)
Lemma timeout_counterexample :
  completions (trace (run edit_image slow_submission)) = [301000] ∧
  completed_late edit_image 0 (trace (run edit_image slow_submission)) ∧
  exit_status (run edit_image slow_submission) = Some 0 ∧
  ¬ printed MsgTimeout (trace (run edit_image slow_submission)) ∧
  writes (trace (run edit_image slow_submission)) =
    [("/srv/app/generated_image.jpg", picture)].
Proof.
  assert (Hc : completions (trace (run edit_image slow_submission)) = [301000])
    by (vm_compute; reflexivity).
  split; [exact Hc|]. split.
  { unfold completed_late. rewrite Hc. repeat constructor. }
  split; [vm_compute; reflexivity|]. split; [|vm_compute; reflexivity].
  intros [t H]. vm_compute in H. in_list H.
Qed.

(** ** C2: a job that is done at once *)

Lemma run_accepted s w t0 r p id st :
  submit s w (start w) = (Done (t0, r), p) →
  status_code r = 200 →
  data_field r "task_id" = inr id →
  data_field r "status" = inr st →
  run s w =
  match while_loop s w (budget s) t0 id
          {| response := r; status := st; generation_ok := true |} p with
  | (Done l, p') =>
      if generation_ok l then finish (download s w (response l) p')
      else finish (Done tt, p')
  | (Raised e, p') => finish (Raised e, p')
  | (Starved, p') => finish (Starved, p')
  end.
Proof.
  intros Hsubmit Hcode Hid Hst.
  unfold run, main, bind. rewrite Hsubmit. cbn.
  replace (status_code r =? 200) with true by lia.
  unfold follow, bind, lift. rewrite Hid, Hst. cbn.
  destruct (while_loop _ _ _ _ _ _ _) as [[l|e|] p']; cbn; auto.
  destruct (generation_ok l); reflexivity.
Qed.

(** C2.  When the response to the submission already carries the status
    [COMPLETED], the loop body never runs: the run is the download block
    started right after the submission, on the submission's own response, and
    its log holds no status query. *)
Theorem completed_at_once s w t0 r p id st :
  submit s w (start w) = (Done (t0, r), p) →
  status_code r = 200 →
  data_field r "task_id" = inr id →
  data_field r "status" = inr st →
  py_eq_str st "COMPLETED" = true →
  run s w = finish (download s w r p) ∧
  status_queries (trace (run s w)) = 0%nat ∧
  ∃ post, trace (run s w) = log p ++ (now p, EPrint MsgCompleted) :: post.
Proof.
  intros Hsubmit Hcode Hid Hst Hdone.
  destruct (submit_facts _ _ _ _ _ Hsubmit) as (Hsub & _).
  rewrite (run_accepted s w t0 r p id st) by assumption.
  rewrite while_loop_done by exact Hdone. simpl.
  pose proof (download_cases s w r p) as Hf.
  split; [reflexivity|]. split.
  - simpl. rewrite (fetched_queries _ _ _ _ _ Hf).
    apply submitting_queries, Hsub.
  - apply (fetched_log _ _ _ _ _ Hf).
Qed.

Lemma completed_at_once_witness :
  status_queries (trace (run gen_video done_at_once)) = 0%nat ∧
  writes (trace (run gen_video done_at_once)) =
    [("/srv/app/generated_video.mp4", picture)].
Proof.
  split; [|vm_compute; reflexivity].
  eapply (completed_at_once gen_video done_at_once);
    [vm_compute; reflexivity | reflexivity | vm_compute; reflexivity
    | vm_compute; reflexivity | reflexivity].
Defined.

(** ** C3: status queries that fail *)

Lemma while_loop_extends s w t0 id fuel l p :
  ∃ evs, log (while_loop s w fuel t0 id l p).2 = log p ++ evs.
Proof.
  apply (while_rule s w t0 id
           (λ _ q, ∃ evs, log q = log p ++ evs)
           (λ _ q, ∃ evs, log q = log p ++ evs)); auto.
  - intros l1 p1 [evs Hlog] _. rewrite tick_eq.
    destruct (serve w (nreq p1) _) as [r|e];
      [destruct (status_code r =? 200);
         [destruct (data_field r "status")|]|];
      unfold checked; try destruct (_ <? _); simpl; rewrite Hlog, <- app_assoc;
      eauto.
  - exists []. rewrite app_nil_r. reflexivity.
Qed.

(** C3, as the scripts have it.  Let the next [N] status queries come back
    with a code other than 200.  Then the loop keeps the status it had and is
    not ended by them: either it goes on after the [N]-th failure with the
    same status, [N] more requests made, or the timeout has ended it on the
    way.  Each failed pass sleeps twice, once before the query and once
    after it, so that the next query is sent two intervals after the failed
    one was answered, not one. *)
Theorem failed_queries_tolerated s w t0 id : ∀ N fuel l p,
  py_eq_str (status l) "COMPLETED" = false →
  (∀ i, (i < N)%nat →
     ∃ r, serve w (nreq p + i) (status_query s id) = Reply r ∧
          status_code r ≠ 200) →
  ∃ l' p',
    status l' = status l ∧
    ((while_loop s w (N + fuel) t0 id l p = while_loop s w fuel t0 id l' p' ∧
      generation_ok l' = generation_ok l ∧
      nreq p' = (nreq p + N)%nat ∧ nsleep p' = (nsleep p + 2 * N)%nat ∧
      now p + Z.of_nat N * (2 * seconds interval) ≤ now p') ∨
     (while_loop s w (N + fuel) t0 id l p = (Done l', p') ∧
      generation_ok l' = false ∧
      seconds (timeout s) < now p' - t0)).
Proof.
  induction N as [|N IH]; intros fuel l p Hgoing Hfail.
  - exists l, p. split; [reflexivity|]. left. repeat split; auto; lia.
  - destruct (Hfail 0%nat ltac:(lia)) as (r & Hserve & Hcode).
    rewrite Nat.add_0_r in Hserve.
    change (S N + fuel)%nat with (S (N + fuel)).
    rewrite while_loop_pass by assumption. rewrite tick_eq, Hserve.
    replace (status_code r =? 200) with false by lia.
    pose proof (pass_times w p) as (Ht1 & Ht2 & Ht3).
    unfold checked.
    destruct (seconds (timeout s) <? rested w p - t0) eqn:Hlate.
    + eexists _, _. split; [|right; split; [reflexivity|]]; simpl; auto.
      split; [reflexivity|lia].
    + set (l1 := {| response := r; status := status l;
                    generation_ok := generation_ok l |}).
      set (p1 := extend p (rested w p) (S (nreq p)) (S (S (nsleep p))) _).
      destruct (IH fuel l1 p1 Hgoing) as (l' & p' & Hst & Hcases).
      { intros i Hi. destruct (Hfail (S i) ltac:(lia)) as (r' & Hr' & Hc').
        exists r'. split; [|assumption]. simpl.
        replace (S (nreq p + i)) with (nreq p + S i)%nat by lia. assumption. }
      exists l', p'. split; [exact Hst|].
      destruct Hcases as [(Heq & Hok & Hn & Hs & Ht)|(Heq & Hok & Ht)];
        [left|right]; rewrite Heq; repeat split; auto; simpl in *;
        unfold seconds, interval in *; lia.
Qed.

Lemma failed_queries_tolerated_witness :
  ∃ l' p',
    status l' = JStr "IN_PROGRESS" ∧
    ((while_loop edit_image two_errors (2 + 1) 0 (JStr "abc123") in_progress
        (start two_errors)
      = while_loop edit_image two_errors 1 0 (JStr "abc123") l' p' ∧
      generation_ok l' = true ∧
      nreq p' = 2%nat ∧ nsleep p' = 4%nat ∧
      0 + 2 * (2 * seconds interval) ≤ now p') ∨
     (while_loop edit_image two_errors (2 + 1) 0 (JStr "abc123") in_progress
        (start two_errors) = (Done l', p') ∧
      generation_ok l' = false ∧
      seconds (timeout edit_image) < now p' - 0)).
Proof.
  apply (failed_queries_tolerated edit_image two_errors 0 (JStr "abc123") 2 1
           in_progress (start two_errors)).
  - reflexivity.
  - intros [|[|i]] Hi; [eexists; split; [reflexivity|discriminate]..|lia].
Defined.

(** C3 as it is written fails on its last part: after the failed first
    query, answered at 2 s, the next one is sent at 6 s, four seconds later;
    after the successful second query the third follows at 8 s, two seconds
    later. *)
Lemma failed_query_counterexample :
  query_log (trace (run edit_image flaky)) =
    [(2000, 500); (6000, 200); (8000, 200)] ∧
  gaps (fst <$> query_log (trace (run edit_image flaky))) = [4000; 2000] ∧
  exit_status (run edit_image flaky) = Some 0.
Proof. repeat split; vm_compute; reflexivity. Qed.

(** ** C4: statuses other than [COMPLETED] *)

(** C4, as the scripts have it.  A status query answered with 200 and any
    status other than [COMPLETED], [FAILED] included, within the timeout,
    does not end the loop: the loop takes the new status, prints that it is
    waiting with it, sleeps and sends the next status query.  The loop
    returns only with [COMPLETED] or through the timeout. *)
Theorem other_status_polls_on s w t0 id fuel l p r st :
  py_eq_str (status l) "COMPLETED" = false →
  serve w (nreq p) (status_query s id) = Reply r →
  status_code r = 200 →
  data_field r "status" = inr st →
  py_eq_str st "COMPLETED" = false →
  answered w p - t0 ≤ seconds (timeout s) →
  let l' := {| response := r; status := st; generation_ok := generation_ok l |} in
  let p' := extend p (answered w p) (S (nreq p)) (S (nsleep p))
              (asked s w id l p ++ [(answered w p, ETime)]) in
  while_loop s w (S (S fuel)) t0 id l p = while_loop s w (S fuel) t0 id l' p' ∧
  (∃ rest, log (while_loop s w (S (S fuel)) t0 id l p).2 =
           log p' ++ asked s w id l' p' ++ rest) ∧
  (generation_ok l = true →
   ∀ l'', (while_loop s w (S (S fuel)) t0 id l p).1 = Done l'' →
     py_eq_str (status l'') "COMPLETED" = true ∨
     (generation_ok l'' = false ∧
      seconds (timeout s) < now (while_loop s w (S (S fuel)) t0 id l p).2 - t0)).
Proof.
  intros Hgoing Hserve Hcode Hst Hother Hin l' p'.
  assert (Hpass : while_loop s w (S (S fuel)) t0 id l p =
                  while_loop s w (S fuel) t0 id l' p').
  { rewrite while_loop_pass by assumption. rewrite tick_eq, Hserve.
    replace (status_code r =? 200) with true by lia. rewrite Hst.
    unfold checked.
    replace (seconds (timeout s) <? answered w p - t0) with false by lia.
    reflexivity. }
  split; [exact Hpass|]. split.
  - rewrite Hpass, while_loop_pass by exact Hother. rewrite tick_eq.
    destruct (serve w (nreq p') _) as [r'|e];
      [destruct (status_code r' =? 200);
         [destruct (data_field r' "status")|]|];
      unfold checked; try destruct (_ <? _); cbn [snd extend log];
      try (rewrite <- ?app_assoc; eauto; fail);
      match goal with
      | |- context [while_loop s w fuel t0 id ?a ?b] =>
          destruct (while_loop_extends s w t0 id fuel a b) as [evs ->]
      end; cbn [log extend]; rewrite <- ?app_assoc; eauto.
  - intros Hok l'' Hres.
    pose proof (while_loop_post s w t0 id l p (S (S fuel)) Hok)
      as (evs & _ & _ & _ & _ & Hverdict).
    rewrite Hres in Hverdict. simpl in Hverdict. tauto.
Qed.

Lemma other_status_polls_on_witness :
  (∃ rest,
     log (while_loop edit_image says_failed 2 0 (JStr "abc123") in_progress
            (start says_failed)).2 =
     [(0, EPrint (MsgWaiting (JStr "IN_PROGRESS")));
      (2000, ESleep 2);
      (2000, ERequest (GetStatus (API_URL edit_image) (JStr "abc123"))
               (Reply (ok_json (job_body "abc123" "FAILED" []))));
      (2000, ETime);
      (2000, EPrint (MsgWaiting (JStr "FAILED")));
      (4000, ESleep 2);
      (4000, ERequest (GetStatus (API_URL edit_image) (JStr "abc123"))
               (Fails RequestException))] ++ rest).
Proof.
  destruct (other_status_polls_on edit_image says_failed 0 (JStr "abc123") 0
              in_progress (start says_failed)
              (ok_json (job_body "abc123" "FAILED" [])) (JStr "FAILED"))
    as (_ & [rest Hlog] & _);
    [reflexivity | reflexivity | reflexivity | reflexivity | reflexivity
    | vm_compute; discriminate |].
  exists rest. rewrite Hlog. reflexivity.
Defined.

(** C4 as it is written fails: the first status query is answered [FAILED],
    and the script sends a second one, finds [COMPLETED] and saves the
    file. *)
Lemma failed_status_counterexample :
  query_log (trace (run edit_image failed_then_done)) = [(2000, 200); (4000, 200)] ∧
  printed (MsgWaiting (JStr "FAILED")) (trace (run edit_image failed_then_done)) ∧
  ¬ printed MsgTimeout (trace (run edit_image failed_then_done)) ∧
  exit_status (run edit_image failed_then_done) = Some 0 ∧
  writes (trace (run edit_image failed_then_done)) =
    [("/srv/app/generated_image.jpg", picture)].
Proof.
  split; [vm_compute; reflexivity|]. split.
  { exists 2000. vm_compute. find_in. }
  split; [intros [t H]; vm_compute in H; in_list H|].
  split; vm_compute; reflexivity.
Qed.

(** ** C10: the first pass comes before the first check *)

Lemma asked_queries s w id l p : status_queries (asked s w id l p) = 1%nat.
Proof. reflexivity. Qed.

(** A loop that has to poll logs a whole first pass, up to the query, before
    anything else. *)
Lemma while_loop_first s w t0 id fuel l p :
  py_eq_str (status l) "COMPLETED" = false →
  ∃ rest, log (while_loop s w (S fuel) t0 id l p).2 =
          log p ++ asked s w id l p ++ rest.
Proof.
  intros Hgoing. rewrite while_loop_pass by assumption. rewrite tick_eq.
  destruct (serve w (nreq p) _) as [r'|e];
    [destruct (status_code r' =? 200);
       [destruct (data_field r' "status")|]|];
    unfold checked; try destruct (_ <? _); cbn [snd extend log];
    try (rewrite <- ?app_assoc; eauto; fail);
    try (exists []; rewrite app_nil_r; reflexivity);
    match goal with
    | |- context [while_loop s w fuel t0 id ?a ?b] =>
        destruct (while_loop_extends s w t0 id fuel a b) as [evs ->]
    end; cbn [log extend]; rewrite <- ?app_assoc; eauto.
Qed.

(** C10, as the scripts have it.  A run whose submission was accepted with a
    status other than [COMPLETED] prints that it waits, sleeps one interval
    and sends a status query before it reads the clock for the first time in
    the loop, however late the loop was entered.  When a pass that began
    within the timeout ends in the timeout, the time over is at most the
    length of that pass: the sleep and the query when the query was answered
    with 200, and one more sleep when it was not. *)
Theorem first_pass_before_check s w t0 r p id st :
  submit s w (start w) = (Done (t0, r), p) →
  status_code r = 200 →
  data_field r "task_id" = inr id →
  data_field r "status" = inr st →
  py_eq_str st "COMPLETED" = false →
  (∃ rest, trace (run s w) =
           log p ++ asked s w id {| response := r; status := st;
                                    generation_ok := true |} p ++ rest) ∧
  (1 ≤ status_queries (trace (run s w)))%nat ∧
  (∀ l q l' q',
     now q - t0 ≤ seconds (timeout s) →
     tick s w t0 id l q = (Done (Break l'), q') →
     seconds (timeout s) < now q' - t0 ∧
     now q' - t0 - seconds (timeout s) ≤
       seconds interval + Z.of_N (oversleep w (nsleep q)) +
       Z.of_N (latency w (nreq q)) +
       (if status_code (response l') =? 200 then 0
        else seconds interval + Z.of_N (oversleep w (S (nsleep q))))).
Proof.
  intros Hsubmit Hcode Hid Hst Hgoing.
  set (l0 := {| response := r; status := st; generation_ok := true |}).
  assert (Hfirst : ∃ rest, trace (run s w) = log p ++ asked s w id l0 p ++ rest).
  { rewrite (run_accepted s w t0 r p id st) by assumption. fold l0.
    destruct (while_loop_first s w t0 id (Z.to_nat (timeout s / interval)) l0 p Hgoing)
      as [rest Hlog].
    change (S (Z.to_nat (timeout s / interval))) with (budget s) in Hlog.
    destruct (while_loop s w (budget s) t0 id l0 p) as [[l|e|] p'];
      simpl in Hlog; [|simpl; eauto..].
    destruct (generation_ok l); [|simpl; eauto].
    destruct (fetched_log _ _ _ _ _ (download_cases s w (response l) p'))
      as [post Hpost].
    simpl. rewrite Hpost, Hlog, <- !app_assoc. eauto. }
  split; [exact Hfirst|]. split.
  - destruct Hfirst as [rest ->]. rewrite !status_queries_app, asked_queries. lia.
  - intros l q l' q' Hin Htick. rewrite tick_eq in Htick.
    unfold checked, rested, answered, woke in Htick.
    destruct (serve w (nreq q) _) as [r'|e]; [|discriminate].
    destruct (status_code r' =? 200) eqn:Hc.
    + destruct (data_field r' "status"); [discriminate|].
      destruct (_ <? _) eqn:Hlate; [|discriminate].
      injection Htick as <- <-. simpl. rewrite Hc. lia.
    + destruct (_ <? _) eqn:Hlate; [|discriminate].
      injection Htick as <- <-. simpl. rewrite Hc.
      change (seconds 2) with (seconds interval) in *. lia.
Qed.

(** The loop of [1_edit_image.py] is entered 301 s after the start, already
    past the timeout, and still sends its status query. *)
Lemma first_pass_before_check_witness :
  query_log (trace (run edit_image late_entry)) = [(303000, 200)] ∧
  (1 ≤ status_queries (trace (run edit_image late_entry)))%nat.
Proof.
  split; [vm_compute; reflexivity|].
  eapply (first_pass_before_check edit_image late_entry);
    [vm_compute; reflexivity | reflexivity | vm_compute; reflexivity
    | vm_compute; reflexivity | reflexivity].
Defined.

(** C10 as it is written fails on its bound: the loop is entered 299 s after
    the start, within the timeout of 300 s; the one status query is answered
    at once with a 500; the script sleeps a second time and finds itself at
    303 s, three seconds over, more than one interval of two seconds plus the
    latency of the request, which was zero. *)
Lemma overshoot_counterexample :
  trace (run edit_image late_error) =
    [(0, ERequest (GetUrl IMAGE_REFERENCE_URL) (Reply (ok_bytes picture)));
     (0, EPrint MsgReference);
     (0, ETime);
     (299000, ERequest (PostJob (API_URL edit_image) (payload edit_image picture))
                (Reply (ok_json (job_body "abc123" "IN_PROGRESS" []))));
     (299000, EPrint (MsgWaiting (JStr "IN_PROGRESS")));
     (301000, ESleep 2);
     (301000, ERequest (GetStatus (API_URL edit_image) (JStr "abc123"))
                (Reply (error_json 500 JNull)));
     (301000, EPrint (MsgStatusError 500));
     (303000, ESleep 2);
     (303000, ETime);
     (303000, EPrint MsgTimeout)] ∧
  latency late_error 2 = 0%N ∧
  ¬ (303000 - 0 - seconds (timeout edit_image)
     ≤ seconds interval + Z.of_N (latency late_error 2)).
Proof.
  split; [vm_compute; reflexivity|]. split; [reflexivity|].
  vm_compute. intros H. apply H. reflexivity.
Qed.

(** ** C7: what the submission yields *)

Lemma while_loop_asks s w t0 id fuel l p :
  ∃ evs, log (while_loop s w fuel t0 id l p).2 = log p ++ evs ∧
         ∀ t q a, (t, ERequest q a) ∈ evs → q = status_query s id.
Proof.
  set (I := λ (_ : Loop) (q : Proc),
         ∃ evs, log q = log p ++ evs ∧
                ∀ t q a, (t, ERequest q a) ∈ evs → q = status_query s id).
  apply (while_rule s w t0 id I (λ _, I l)); unfold I; auto.
  - intros l1 p1 (evs & Hlog & Hq) _. rewrite tick_eq.
    destruct (serve w (nreq p1) _) as [r|e];
      [destruct (status_code r =? 200);
         [destruct (data_field r "status")|]|];
      unfold checked; try destruct (_ <? _); cbn [log extend];
      rewrite Hlog, <- app_assoc; eexists; (split; [reflexivity|]);
      intros t q a Hin; rewrite ?elem_of_app in Hin;
      unfold asked, excused in Hin;
      repeat match type of Hin with _ ∨ _ => destruct Hin as [Hin|Hin] end;
      eauto; in_list Hin; congruence.
  - exists []. rewrite app_nil_r. split; [reflexivity|].
    intros t q a Hin. in_list Hin.
Qed.

Lemma submitting_requests t b id a tr :
  Forall submitting tr → (t, ERequest (GetStatus b id) a) ∉ tr.
Proof.
  intros Hall Hin. rewrite Forall_forall in Hall. apply (Hall _ Hin).
Qed.

(** C7, as the scripts have it.  After a submission that got a response,
    the script goes on to poll or to download exactly when the response has
    status code 200 and a body in which [data.task_id] and [data.status] can
    be read; every status query it then sends is for the [task_id] of that
    body, as it stands there.  A 200 response in whose body one of the two
    cannot be read never gives a job: the exception of the reading ends the
    run on the spot, uncaught.  A response with another code is reported
    with its message and the run ends there, or, when the message cannot be
    read, ends the run with that exception; no status query is sent. *)
Theorem job_iff_accepted s w t0 r p :
  submit s w (start w) = (Done (t0, r), p) →
  (past_submission (trace (run s w)) ↔
   status_code r = 200 ∧
   ∃ id st, data_field r "task_id" = inr id ∧ data_field r "status" = inr st) ∧
  (∀ t b id a, (t, ERequest (GetStatus b id) a) ∈ trace (run s w) →
     b = API_URL s ∧ data_field r "task_id" = inr id) ∧
  (status_code r ≠ 200 →
   status_queries (trace (run s w)) = 0%nat ∧
   ((∃ msg, printed (MsgSubmitError (status_code r) msg) (trace (run s w))) ∨
    exit_status (run s w) = Some 1)) ∧
  (status_code r = 200 →
   ∀ e, data_field r "task_id" = inl e ∨
        ((∃ id, data_field r "task_id" = inr id) ∧
         data_field r "status" = inl e) →
     ending (run s w) = Raised e ∧ exit_status (run s w) = Some 1 ∧
     trace (run s w) = log p ∧ files (run s w) = fs0 w) ∧
  (status_code r ≠ 200 →
   (∀ msg, message_of r = inr msg →
      ending (run s w) = Done tt ∧
      trace (run s w)
        = log p ++ [(now p, EPrint (MsgSubmitError (status_code r) msg))]) ∧
   (∀ e, message_of r = inl e →
      ending (run s w) = Raised e ∧ exit_status (run s w) = Some 1 ∧
      trace (run s w) = log p)).
Proof.
  intros Hsubmit.
  assert (Hjob_or_not :
    (past_submission (trace (run s w)) ↔
       status_code r = 200 ∧
       ∃ id st, data_field r "task_id" = inr id ∧ data_field r "status" = inr st) ∧
    (∀ t b id a, (t, ERequest (GetStatus b id) a) ∈ trace (run s w) →
         b = API_URL s ∧ data_field r "task_id" = inr id) ∧
    (status_code r ≠ 200 →
       status_queries (trace (run s w)) = 0%nat ∧
       ((∃ msg, printed (MsgSubmitError (status_code r) msg) (trace (run s w))) ∨
        exit_status (run s w) = Some 1))).
  { destruct (submit_facts _ _ _ _ _ Hsubmit) as (Hsub & Hfs & Hclock & _).
    assert (Hquietp : ¬ past_submission (log p)).
    { intros [Hp|[st Hp]]; apply (submitting_printed _ _ Hsub) in Hp; discriminate. }
    pose proof (run_cases s w) as Hran.
    remember (run s w) as o eqn:Ho.
    destruct Hran as [e p1 H1|t1 r1 p1 e H1 Hc1 Hmsg|t1 r1 p1 msg H1 Hc1 Hmsg
      |t1 r1 p1 e H1 Hc1 Hjob
      |t1 r1 p1 id st1 e p' evs H1 Hc1 Hid Hst1 Hloop Hlog Hfs' Hpoll Hquiet
      |t1 r1 p1 id st1 l p' evs H1 Hc1 Hid Hst1 Hloop Hlog Hfs' Hpoll Hok Htime Hpast
      |t1 r1 p1 id st1 l p' evs x H1 Hc1 Hid Hst1 Hloop Hlog Hfs' Hpoll Hok Hdone
         Hquiet Hseen Hfetch];
      same_submit; unfold crashed, finish; simpl.
    - (* rejected, no message *)
      split; [split; [tauto|intros [? _]; congruence]|].
      split; [intros t b id a Hin; destruct (submitting_requests _ _ _ _ _ Hsub Hin)|].
      intros _. split; [apply submitting_queries, Hsub|]. right. reflexivity.
    - (* rejected, reported *)
      split; [split; [|intros [? _]; congruence]|].
      { intros [Hp|[st Hp]]; apply printed_app in Hp as [Hp|[t Hp]];
          try (exfalso; apply Hquietp; unfold past_submission; eauto; fail);
          in_list Hp. }
      split.
      { intros t b id a Hin. apply elem_of_app in Hin as [Hin|Hin];
          [destruct (submitting_requests _ _ _ _ _ Hsub Hin)|in_list Hin]. }
      intros _. split.
      + rewrite status_queries_app, submitting_queries by assumption. reflexivity.
      + left. exists msg. apply printed_app. right. exists (now p). find_in.
    - (* accepted, no job in the body *)
      split; [split; [tauto|]|].
      { intros (_ & id & st & Hid & Hst).
        destruct Hjob as [Hjob|[_ Hjob]]; congruence. }
      split; [intros t b id a Hin; destruct (submitting_requests _ _ _ _ _ Hsub Hin)|].
      intros Hc. congruence.
    - (* the loop raised *)
      destruct (while_loop_asks s w t0 id (budget s)
                  {| response := r; status := st1; generation_ok := true |} p)
        as (evs' & Hlog' & Hasks).
      rewrite Hloop in Hlog'. cbn [snd] in Hlog'. rewrite Hlog in Hlog'.
      apply app_inv_head in Hlog' as <-. rewrite Hlog.
      split; [split; [eauto|intros _]|].
      { destruct (py_eq_str st1 "COMPLETED") eqn:Hdone.
        - rewrite while_loop_done in Hloop by exact Hdone. discriminate.
        - destruct (while_loop_first s w t0 id (Z.to_nat (timeout s / interval))
                      {| response := r; status := st1; generation_ok := true |} p Hdone)
            as [rest Hfirst].
          change (S (Z.to_nat (timeout s / interval))) with (budget s) in Hfirst.
          rewrite Hloop in Hfirst. cbn [snd] in Hfirst. rewrite <- Hlog, Hfirst.
          right. exists st1, (now p). rewrite !elem_of_app. right; left. find_in. }
      split; [|intros Hc; congruence].
      intros t b id' a Hin. apply elem_of_app in Hin as [Hin|Hin];
        [destruct (submitting_requests _ _ _ _ _ Hsub Hin)|].
      apply Hasks in Hin. injection Hin as -> ->. auto.
    - (* the timeout *)
      destruct (while_loop_asks s w t0 id (budget s)
                  {| response := r; status := st1; generation_ok := true |} p)
        as (evs' & Hlog' & Hasks).
      rewrite Hloop in Hlog'. cbn [snd] in Hlog'. rewrite Hlog in Hlog'.
      apply app_inv_head in Hlog' as <-. rewrite Hlog.
      split; [split; [eauto|intros _]|].
      { destruct (py_eq_str st1 "COMPLETED") eqn:Hdone.
        - rewrite while_loop_done in Hloop by exact Hdone.
          injection Hloop as <- <-. discriminate.
        - destruct (while_loop_first s w t0 id (Z.to_nat (timeout s / interval))
                      {| response := r; status := st1; generation_ok := true |} p Hdone)
            as [rest Hfirst].
          change (S (Z.to_nat (timeout s / interval))) with (budget s) in Hfirst.
          rewrite Hloop in Hfirst. cbn [snd] in Hfirst. rewrite <- Hlog, Hfirst.
          right. exists st1, (now p). rewrite !elem_of_app. right; left. find_in. }
      split; [|intros Hc; congruence].
      intros t b id' a Hin. apply elem_of_app in Hin as [Hin|Hin];
        [destruct (submitting_requests _ _ _ _ _ Hsub Hin)|].
      apply Hasks in Hin. injection Hin as -> ->. auto.
    - (* the download *)
      destruct (while_loop_asks s w t0 id (budget s)
                  {| response := r; status := st1; generation_ok := true |} p)
        as (evs' & Hlog' & Hasks).
      rewrite Hloop in Hlog'. cbn [snd] in Hlog'. rewrite Hlog in Hlog'.
      apply app_inv_head in Hlog' as <-.
      split; [split; [eauto|intros _]|].
      { destruct (fetched_log _ _ _ _ _ Hfetch) as [post ->].
        left. exists (now p'). rewrite !elem_of_app. right. find_in. }
      split; [|intros Hc; congruence].
      intros t b id' a Hin.
      assert (Hin' : (t, ERequest (GetStatus b id') a) ∈ log p ++ evs).
      { destruct Hfetch; cbn [snd log extend] in Hin; rewrite Hlog in Hin;
          apply elem_of_app in Hin as [Hin|Hin]; auto; in_list Hin. }
      apply elem_of_app in Hin' as [Hin'|Hin'];
        [destruct (submitting_requests _ _ _ _ _ Hsub Hin')|].
      apply Hasks in Hin'. injection Hin' as -> ->. auto. }
  assert (Hunread :
    (status_code r = 200 →
       ∀ e, data_field r "task_id" = inl e ∨
            ((∃ id, data_field r "task_id" = inr id) ∧
             data_field r "status" = inl e) →
         ending (run s w) = Raised e ∧ exit_status (run s w) = Some 1 ∧
         trace (run s w) = log p ∧ files (run s w) = fs0 w) ∧
    (status_code r ≠ 200 →
       (∀ msg, message_of r = inr msg →
          ending (run s w) = Done tt ∧
          trace (run s w)
            = log p ++ [(now p, EPrint (MsgSubmitError (status_code r) msg))]) ∧
       (∀ e, message_of r = inl e →
          ending (run s w) = Raised e ∧ exit_status (run s w) = Some 1 ∧
          trace (run s w) = log p))).
  { destruct (submit_facts _ _ _ _ _ Hsubmit) as (Hsub & Hfs & _).
    pose proof (run_cases s w) as Hran.
    remember (run s w) as o eqn:Ho. clear Ho.
    destruct Hran as [e0 p1 H1|t1 r1 p1 e0 H1 Hc1 Hmsg|t1 r1 p1 msg0 H1 Hc1 Hmsg
      |t1 r1 p1 e0 H1 Hc1 Hjob
      |t1 r1 p1 id st1 e0 p' evs H1 Hc1 Hid Hst1 Hloop Hlog Hfs' Hpoll Hquiet
      |t1 r1 p1 id st1 l p' evs H1 Hc1 Hid Hst1 Hloop Hlog Hfs' Hpoll Hok Htime Hpast
      |t1 r1 p1 id st1 l p' evs x H1 Hc1 Hid Hst1 Hloop Hlog Hfs' Hpoll Hok Hdone
         Hquiet Hseen Hfetch];
      same_submit; unfold crashed, finish, exit_status; cbn [ending trace files];
      (split;
        [intros Hc e [Hbad|[[id' Hid'] Hbad]]
        |intros Hc; split; [intros msg Hm|intros e Hm]]);
      try congruence.
    - assert (e0 = e) by congruence. subst e0. auto.
    - assert (msg0 = msg) by congruence. subst msg0. auto.
    - assert (e0 = e)
        by (destruct Hjob as [Hjob|[[id0 Hid0] Hjob]]; congruence).
      subst e0. auto.
    - assert (e0 = e)
        by (destruct Hjob as [Hjob|[[id0 Hid0] Hjob]]; congruence).
      subst e0. auto. }
  destruct Hjob_or_not as (HA & HB & HC). destruct Hunread as (HD & HE).
  split; [exact HA|]. split; [exact HB|]. split; [exact HC|].
  split; [exact HD|exact HE].
Qed.

Lemma job_iff_accepted_witness :
  status_queries (trace (run edit_image late_error)) = 1%nat ∧
  (∃ t a, (t, ERequest (GetStatus (API_URL edit_image) (JStr "abc123")) a)
            ∈ trace (run edit_image late_error)) ∧
  API_URL edit_image = API_URL edit_image ∧
  data_field (ok_json (job_body "abc123" "IN_PROGRESS" [])) "task_id"
    = inr (JStr "abc123").
Proof.
  split; [vm_compute; reflexivity|].
  assert (Hin : (301000, ERequest (GetStatus (API_URL edit_image) (JStr "abc123"))
                           (Reply (error_json 500 JNull)))
                ∈ trace (run edit_image late_error)).
  { vm_compute. find_in. }
  split; [eauto|].
  destruct (job_iff_accepted edit_image late_error 0
              (ok_json (job_body "abc123" "IN_PROGRESS" []))
              (submit edit_image late_error (start late_error)).2)
    as (_ & Hids & _); [vm_compute; reflexivity|].
  exact (Hids _ _ _ _ Hin).
Defined.

(** C7 as it is written fails on the identifier: the body parses and the
    code is 200, and the job the script polls and downloads has the empty
    string for its id. *)
Lemma empty_id_counterexample :
  (submit edit_image empty_id (start empty_id)).1 =
    Done (0, ok_json (job_body "" "IN_PROGRESS" [])) ∧
  data_field (ok_json (job_body "" "IN_PROGRESS" [])) "task_id" = inr (JStr "") ∧
  (2000, ERequest (GetStatus (API_URL edit_image) (JStr ""))
           (Reply (ok_json (job_body "" "COMPLETED" [JStr "https://x/y.jpg"]))))
    ∈ trace (run edit_image empty_id) ∧
  writes (trace (run edit_image empty_id)) =
    [("/srv/app/generated_image.jpg", picture)].
Proof.
  split; [vm_compute; reflexivity|]. split; [reflexivity|].
  split; [vm_compute; find_in|vm_compute; reflexivity].
Qed.

(** ** C6: the exit status *)

Ltac absurd_print Hsub Hpoll H :=
  exfalso; repeat (apply printed_app in H as [H|H]);
  first
    [ apply (submitting_printed _ _ Hsub) in H; discriminate H
    | apply (polling_printed _ _ Hpoll) in H; exact H
    | contradiction
    | solve [let t := fresh "t" in destruct H as [t H]; in_list H] ].

Ltac no_failure Hsub Hpoll :=
  let H := fresh "H" in
  let c := fresh "c" in
  let m := fresh "m" in
  intros [(c & m & H)|[H|[c H]]]; absurd_print Hsub Hpoll H.

Ltac no_saved Hsub Hpoll :=
  let H := fresh "H" in
  let f := fresh "f" in
  intros f H; absurd_print Hsub Hpoll H.

Ltac crash_case Hsub Hpoll :=
  split; [no_failure Hsub Hpoll|];
  split; [no_saved Hsub Hpoll|];
  split; [discriminate|];
  split; [eauto|reflexivity].

Lemma writes_parts pre evs post :
  Forall submitting pre → Forall polling evs →
  writes ((pre ++ evs) ++ post) = writes post.
Proof.
  intros Hsub Hpoll.
  rewrite !writes_app, submitting_writes, polling_writes by assumption.
  reflexivity.
Qed.

(** C6, as the scripts have it.  A script that reports a failure (a refused
    submission, the timeout, a download answered with a code other than 200)
    has written no file and runs to its end: the exit status is zero, as it
    is after a successful download, which writes exactly one file.  An exit
    status of zero means one of these four reports; the status is 1 only
    when an exception was not caught. *)
Theorem exit_status_of_reports s w :
  (reported_failure (trace (run s w)) →
   exit_status (run s w) = Some 0 ∧ writes (trace (run s w)) = []) ∧
  (∀ f, printed (MsgSaved f) (trace (run s w)) →
   exit_status (run s w) = Some 0 ∧
   ∃ data, writes (trace (run s w)) = [(f, data)]) ∧
  (exit_status (run s w) = Some 0 →
   reported_failure (trace (run s w)) ∨
   ∃ f, printed (MsgSaved f) (trace (run s w))) ∧
  (exit_status (run s w) = Some 1 ↔ ∃ e, ending (run s w) = Raised e).
Proof.
  pose proof (run_cases s w) as Hran.
  remember (run s w) as o eqn:Ho. clear Ho.
  assert (Hpoll0 : Forall polling []) by constructor.
  destruct Hran as [e p1 H1|t1 r1 p1 e H1 Hc1 Hmsg|t1 r1 p1 msg H1 Hc1 Hmsg
    |t1 r1 p1 e H1 Hc1 Hjob
    |t1 r1 p1 id st1 e p' evs H1 Hc1 Hid Hst1 Hloop Hlog Hfs' Hpoll Hquiet
    |t1 r1 p1 id st1 l p' evs H1 Hc1 Hid Hst1 Hloop Hlog Hfs' Hpoll Hok Htime Hpast
    |t1 r1 p1 id st1 l p' evs x H1 Hc1 Hid Hst1 Hloop Hlog Hfs' Hpoll Hok Hdone
       Hquiet Hseen Hfetch];
    [destruct (unsubmitted_facts _ _ _ _ H1) as (Hsub & Hfs)
    |destruct (submit_facts _ _ _ _ _ H1) as (Hsub & Hfs & _)..];
    unfold reported_failure, exit_status, crashed, finish; simpl.
  - crash_case Hsub Hpoll0.
  - crash_case Hsub Hpoll0.
  - (* refused and reported *)
    split; [intros _; split; [reflexivity|]|].
    { rewrite writes_app, submitting_writes by assumption. reflexivity. }
    split; [no_saved Hsub Hpoll0|].
    split; [|split; [discriminate|intros [e He]; discriminate]].
    intros _. left. left. exists (status_code r1), msg.
    apply printed_app. right. exists (now p1). find_in.
  - crash_case Hsub Hpoll0.
  - (* the loop raised *)
    rewrite Hlog. crash_case Hsub Hpoll.
  - (* the timeout *)
    rewrite Hlog.
    split; [intros _; split; [reflexivity|]|].
    { rewrite writes_app, submitting_writes, polling_writes by assumption.
      reflexivity. }
    split; [no_saved Hsub Hpoll|].
    split; [|split; [discriminate|intros [e He]; discriminate]].
    intros _. left. right. left. apply printed_app. auto.
  - (* the download *)
    destruct Hfetch; simpl; rewrite Hlog, ?writes_parts by assumption.
    + crash_case Hsub Hpoll.
    + crash_case Hsub Hpoll.
    + split; [intros _; split; reflexivity|].
      split; [no_saved Hsub Hpoll|].
      split; [|split; [discriminate|intros [e He]; discriminate]].
      intros _. left. right. right. exists (status_code r').
      apply printed_app. right. exists t. find_in.
    + split; [no_failure Hsub Hpoll|].
      split; [|split; [|split; [discriminate|intros [e He]; discriminate]]].
      * intros f Hp. split; [reflexivity|]. exists (content r').
        assert (Hf : f = file_name s w); [|rewrite Hf; reflexivity].
        repeat (apply printed_app in Hp as [Hp|Hp]).
        -- apply (submitting_printed _ _ Hsub) in Hp. discriminate Hp.
        -- apply (polling_printed _ _ Hpoll) in Hp. destruct Hp.
        -- destruct Hp as [t' Hp]. in_list Hp. injection Hp as _ ->. reflexivity.
      * intros _. right. exists (file_name s w).
        apply printed_app. right. exists t. find_in.
    + crash_case Hsub Hpoll.
    + crash_case Hsub Hpoll.
Qed.

Lemma exit_status_of_reports_witness :
  exit_status (run edit_image smooth) = Some 0 ∧
  ∃ data, writes (trace (run edit_image smooth)) =
          [("/srv/app/generated_image.jpg", data)].
Proof.
  apply (exit_status_of_reports edit_image smooth).
  exists 4000. vm_compute. find_in.
Defined.

(** C6 as it is written fails: the submission is refused with a 401, the
    script prints the error with the provider's message, and the exit status
    is zero. *)
Lemma exit_status_counterexample :
  printed (MsgSubmitError 401 (JStr "Invalid API key"))
    (trace (run edit_image refused)) ∧
  writes (trace (run edit_image refused)) = [] ∧
  exit_status (run edit_image refused) = Some 0.
Proof.
  split; [exists 0; vm_compute; find_in|]. split; vm_compute; reflexivity.
Qed.

(** ** C8: the artifact *)

Lemma submit_replied s w t0 r p t q e :
  submit s w (start w) = (Done (t0, r), p) → (t, ERequest q (Fails e)) ∉ log p.
Proof.
  unfold submit; exec.
  destruct (serve w 0%nat _) as [r0|e0]; simpl; [|discriminate].
  destruct (status_code r0 =? 200); simpl; [|discriminate].
  destruct (serve w 1%nat _) as [r1|e1]; simpl; [|discriminate].
  intros [= <- <- <-] Hin. simpl in Hin. in_list Hin.
Qed.

Lemma submit_posted s w t0 r p :
  submit s w (start w) = (Done (t0, r), p) →
  ∃ pl, (now p, ERequest (PostJob (API_URL s) pl) (Reply r)) ∈ log p.
Proof.
  unfold submit; exec.
  destruct (serve w 0%nat _) as [r0|e0]; simpl; [|discriminate].
  destruct (status_code r0 =? 200); simpl; [|discriminate].
  destruct (serve w 1%nat _) as [r1|e1] eqn:H1; simpl; [|discriminate].
  intros [= <- <- <-]. eexists. cbn [now log]. find_in.
Qed.

Ltac absurd_event Hsub Hpoll H :=
  exfalso; repeat (apply elem_of_app in H as [H|H]);
  first
    [ rewrite Forall_forall in Hsub; apply Hsub in H; exact H
    | rewrite Forall_forall in Hpoll; apply Hpoll in H; exact H
    | solve [in_list H] ].

(** C8, as the scripts have it.  When a script reports that it saved the
    file, the file at [file_name] holds exactly the body of the download's
    200 response, which may be empty, and that is the only write: the
    download is the request the log shows right before the write, for the
    location selected from a response that said [COMPLETED].  When the
    download is answered with another code, or a plain [requests.get] raises,
    nothing is written and no file changes.  Whatever a run writes goes to
    [file_name] and stays: either the save is reported, or the write broke
    on a full disk and the bytes of that same download that fitted are left
    in the file. *)
Theorem artifact_as_downloaded s w :
  (∀ f, printed (MsgSaved f) (trace (run s w)) →
     f = file_name s w ∧
     ∃ t url r', (t, ERequest (GetUrl url) (Reply r')) ∈ trace (run s w) ∧
                 status_code r' = 200 ∧
                 writes (trace (run s w)) = [(f, content r')] ∧
                 files (run s w) = <[f := content r']> (fs0 w) ∧
                 ∃ pre, trace (run s w)
                          = pre ++ [(t, ERequest (GetUrl url) (Reply r'));
                                    (t, EWrite f (content r'));
                                    (t, EPrint (MsgSaved f))] ∧
                        selected_from s pre url) ∧
  ((∃ code, printed (MsgDownloadFailed code) (trace (run s w))) →
     writes (trace (run s w)) = [] ∧ files (run s w) = fs0 w) ∧
  (∀ t url e, (t, ERequest (GetUrl url) (Fails e)) ∈ trace (run s w) →
     writes (trace (run s w)) = [] ∧ files (run s w) = fs0 w) ∧
  (∀ t f data, (t, EWrite f data) ∈ trace (run s w) →
     f = file_name s w ∧
     files (run s w) = <[f := data]> (fs0 w) ∧
     (printed (MsgSaved f) (trace (run s w)) ∨
      (ending (run s w) = Raised OSError ∧
       ∃ room r', storage w = Full room ∧
                  (room < length (content r'))%nat ∧
                  data = take room (content r') ∧
                  status_code r' = 200 ∧
                  ∃ url pre, trace (run s w)
                               = pre ++ [(t, ERequest (GetUrl url) (Reply r'));
                                         (t, EWrite f data)] ∧
                             selected_from s pre url))).
Proof.
  pose proof (run_cases s w) as Hran.
  remember (run s w) as o eqn:Ho. clear Ho.
  assert (Hpoll0 : Forall polling []) by constructor.
  assert (Hplain : ∀ pre e (fs1 : gmap string (list byte)),
    Forall submitting pre → fs1 = fs0 w →
    ∀ evs, Forall polling evs →
    let o := {| ending := e; trace := pre ++ evs; files := fs1 |} in
    (∀ f, printed (MsgSaved f) (trace o) →
       f = file_name s w ∧
       ∃ t url r', (t, ERequest (GetUrl url) (Reply r')) ∈ trace o ∧
                   status_code r' = 200 ∧
                   writes (trace o) = [(f, content r')] ∧
                   files o = <[f := content r']> (fs0 w) ∧
                   ∃ pre, trace o
                            = pre ++ [(t, ERequest (GetUrl url) (Reply r'));
                                      (t, EWrite f (content r'));
                                      (t, EPrint (MsgSaved f))] ∧
                          selected_from s pre url) ∧
    ((∃ code, printed (MsgDownloadFailed code) (trace o)) →
       writes (trace o) = [] ∧ files o = fs0 w) ∧
    (∀ t url e, (t, ERequest (GetUrl url) (Fails e)) ∈ trace o →
       writes (trace o) = [] ∧ files o = fs0 w) ∧
    (∀ t f data, (t, EWrite f data) ∈ trace o →
       f = file_name s w ∧
       files o = <[f := data]> (fs0 w) ∧
       (printed (MsgSaved f) (trace o) ∨
        (ending o = Raised OSError ∧
         ∃ room r', storage w = Full room ∧
                    (room < length (content r'))%nat ∧
                    data = take room (content r') ∧
                    status_code r' = 200 ∧
                    ∃ url pre, trace o
                                 = pre ++ [(t, ERequest (GetUrl url) (Reply r'));
                                           (t, EWrite f data)] ∧
                               selected_from s pre url)))).
  { intros pre e fs1 Hsub -> evs Hpoll. simpl.
    assert (Hw : writes (pre ++ evs) = []).
    { rewrite writes_app, submitting_writes, polling_writes by assumption.
      reflexivity. }
    split; [intros f H; absurd_print Hsub Hpoll H|].
    split; [auto|]. split; [auto|].
    intros t f data H. absurd_event Hsub Hpoll H. }
  destruct Hran as [e p1 H1|t1 r1 p1 e H1 Hc1 Hmsg|t1 r1 p1 msg H1 Hc1 Hmsg
    |t1 r1 p1 e H1 Hc1 Hjob
    |t1 r1 p1 id st1 e p' evs H1 Hc1 Hid Hst1 Hloop Hlog Hfs' Hpoll Hquiet
    |t1 r1 p1 id st1 l p' evs H1 Hc1 Hid Hst1 Hloop Hlog Hfs' Hpoll Hok Htime Hpast
    |t1 r1 p1 id st1 l p' evs x H1 Hc1 Hid Hst1 Hloop Hlog Hfs' Hpoll Hok Hdone
       Hquiet Hseen Hfetch];
    [destruct (unsubmitted_facts _ _ _ _ H1) as (Hsub & Hfs)
    |destruct (submit_facts _ _ _ _ _ H1) as (Hsub & Hfs & _)..];
    unfold crashed, finish.
  - rewrite <- (app_nil_r (log p1)). apply Hplain; auto.
  - rewrite <- (app_nil_r (log p1)). apply Hplain; auto.
  - (* refused and reported *)
    simpl.
    assert (Hw : writes (log p1 ++ [(now p1, EPrint (MsgSubmitError (status_code r1) msg))]) = []).
    { rewrite writes_app, submitting_writes by assumption. reflexivity. }
    split; [intros f H; absurd_print Hsub Hpoll0 H|].
    split; [auto|]. split; [auto|].
    intros t f data H. absurd_event Hsub Hpoll0 H.
  - rewrite <- (app_nil_r (log p1)). apply Hplain; auto.
  - rewrite Hlog. apply Hplain; auto. congruence.
  - rewrite Hlog. apply Hplain; auto. congruence.
  - (* the download *)
    pose proof (submit_replied s w t1 r1 p1) as Hreplied.
    assert (Hsource : ∀ url, select_url s (response l) = inr url →
      selected_from s ((log p1 ++ evs) ++ [(now p', EPrint MsgCompleted)]) url).
    { intros url Hurl.
      destruct Hseen as [[-> _]|(tq & Hq & Hcode & Hst & Hwithin)].
      - destruct (submit_posted _ _ _ _ _ H1) as [pl Hpl].
        exists (now p1), (PostJob (API_URL s) pl), r1.
        split; [rewrite !elem_of_app; auto|]. split; [exact I|].
        split; [|exact Hurl].
        unfold reports_completed. cbn [response status] in *.
        rewrite Hst1, Hdone. apply andb_true_intro. split; [lia|reflexivity].
      - exists tq, (status_query s id), (response l).
        split; [rewrite !elem_of_app; auto|]. split; [exact I|].
        split; [|exact Hurl].
        unfold reports_completed. rewrite Hst, Hdone.
        apply andb_true_intro. split; [lia|reflexivity]. }
    destruct Hfetch as [e Hurl|url e t Hurl Hserve Ht|url r' t Hurl Hserve Hcode Ht
      |url r' t Hurl Hserve Hcode Hdisk Ht|url r' t Hurl Hserve Hcode Hdisk Ht
      |url r' t room Hurl Hserve Hcode Hdisk Hroom Ht];
      simpl; rewrite Hlog, ?writes_parts by assumption.
    + split; [intros f H; absurd_print Hsub Hpoll H|].
      split; [intros _; split; [reflexivity|congruence]|].
      split; [intros; split; [reflexivity|congruence]|].
      intros t f data H. absurd_event Hsub Hpoll H.
    + split; [intros f H; absurd_print Hsub Hpoll H|].
      split; [intros _; split; [reflexivity|congruence]|].
      split; [intros; split; [reflexivity|congruence]|].
      intros t' f data H. absurd_event Hsub Hpoll H.
    + split; [intros f H; absurd_print Hsub Hpoll H|].
      split; [intros _; split; [reflexivity|congruence]|].
      split; [intros; split; [reflexivity|congruence]|].
      intros t' f data H. absurd_event Hsub Hpoll H.
    + (* saved *)
      split; [|split; [|split]].
      * intros f Hp.
        assert (Hf : f = file_name s w).
        { repeat (apply printed_app in Hp as [Hp|Hp]).
          - apply (submitting_printed _ _ Hsub) in Hp. discriminate Hp.
          - apply (polling_printed _ _ Hpoll) in Hp. destruct Hp.
          - destruct Hp as [t' Hp]. in_list Hp. injection Hp as _ ->. reflexivity. }
        subst f. split; [reflexivity|]. exists t, url, r'.
        split; [rewrite !elem_of_app; right; find_in|].
        split; [assumption|]. split; [reflexivity|]. split; [congruence|].
        exists ((log p1 ++ evs) ++ [(now p', EPrint MsgCompleted)]).
        split; [rewrite <- (app_assoc (log p1 ++ evs)); reflexivity|].
        apply Hsource, Hurl.
      * intros [c H]. absurd_print Hsub Hpoll H.
      * intros t' url' e H. exfalso.
        repeat (apply elem_of_app in H as [H|H]).
        -- apply (Hreplied _ _ _ H1 H).
        -- rewrite Forall_forall in Hpoll. apply Hpoll in H. exact H.
        -- in_list H.
      * intros t' f data H.
        assert (Hfd : f = file_name s w ∧ data = content r').
        { repeat (apply elem_of_app in H as [H|H]).
          - rewrite Forall_forall in Hsub. apply Hsub in H. destruct H.
          - rewrite Forall_forall in Hpoll. apply Hpoll in H. destruct H.
          - in_list H. injection H as _ -> ->. auto. }
        destruct Hfd as [-> ->]. split; [reflexivity|]. split; [congruence|].
        left. rewrite !printed_app. right. exists t. find_in.
    + split; [intros f H; absurd_print Hsub Hpoll H|].
      split; [intros _; split; [reflexivity|congruence]|].
      split; [intros; split; [reflexivity|congruence]|].
      intros t' f data H. absurd_event Hsub Hpoll H.
    + (* the disk filled up *)
      split; [intros f H; absurd_print Hsub Hpoll H|].
      split; [intros [c H]; absurd_print Hsub Hpoll H|].
      split.
      * intros t' url' e H. exfalso.
        repeat (apply elem_of_app in H as [H|H]).
        -- apply (Hreplied _ _ _ H1 H).
        -- rewrite Forall_forall in Hpoll. apply Hpoll in H. exact H.
        -- in_list H.
      * intros t' f data H.
        assert (Hfd : t' = t ∧ f = file_name s w ∧ data = take room (content r')).
        { repeat (apply elem_of_app in H as [H|H]).
          - rewrite Forall_forall in Hsub. apply Hsub in H. destruct H.
          - rewrite Forall_forall in Hpoll. apply Hpoll in H. destruct H.
          - in_list H. injection H as -> -> ->. auto. }
        destruct Hfd as (-> & -> & ->). split; [reflexivity|].
        split; [congruence|].
        right. split; [reflexivity|]. exists room, r'.
        split; [assumption|]. split; [assumption|]. split; [reflexivity|].
        split; [assumption|].
        exists url, ((log p1 ++ evs) ++ [(now p', EPrint MsgCompleted)]).
        split; [rewrite <- (app_assoc (log p1 ++ evs)); reflexivity|].
        apply Hsource, Hurl.
Qed.

Lemma artifact_as_downloaded_witness :
  writes (trace (run edit_image missing_download)) = [] ∧
  files (run edit_image missing_download) = fs0 missing_download.
Proof.
  apply (artifact_as_downloaded edit_image missing_download).
  exists 404, 0. vm_compute. find_in.
Defined.

(** C8 as it is written fails: the download is answered with 200 and no
    bytes; the script writes the empty file and reports success. *)
Lemma empty_artifact_counterexample :
  printed (MsgSaved "/srv/app/generated_image.jpg")
    (trace (run edit_image empty_download)) ∧
  exit_status (run edit_image empty_download) = Some 0 ∧
  files (run edit_image empty_download) !! "/srv/app/generated_image.jpg"
    = Some [] ∧
  ¬ (0 < length ([] : list byte))%nat.
Proof.
  split; [exists 0; vm_compute; find_in|].
  split; [vm_compute; reflexivity|]. split; [vm_compute; reflexivity|].
  simpl. lia.
Qed.

(** ** C9: the scenario with three answers *)

(** A pass whose query is answered with 200 within the timeout: the loop
    goes on with the new response and status. *)
Lemma pass_answered s w t0 id fuel l p r st :
  py_eq_str (status l) "COMPLETED" = false →
  serve w (nreq p) (status_query s id) = Reply r →
  status_code r = 200 →
  data_field r "status" = inr st →
  answered w p - t0 ≤ seconds (timeout s) →
  while_loop s w (S fuel) t0 id l p =
  while_loop s w fuel t0 id
    {| response := r; status := st; generation_ok := generation_ok l |}
    (extend p (answered w p) (S (nreq p)) (S (nsleep p))
       (asked s w id l p ++ [(answered w p, ETime)])).
Proof.
  intros Hgoing Hserve Hcode Hst Hin.
  rewrite while_loop_pass by assumption. rewrite tick_eq, Hserve.
  replace (status_code r =? 200) with true by lia. rewrite Hst.
  unfold checked.
  replace (seconds (timeout s) <? answered w p - t0) with false by lia.
  reflexivity.
Qed.

Lemma budget_three s : ∃ fuel, budget s = S (S (S fuel)).
Proof. destruct s; [exists 148%nat|exists 298%nat]; reflexivity. Qed.

Lemma select_single s r u :
  String.prefix "https://" u = true →
  data_field r "generated" = inr (JArr [JStr u]) →
  select_url s r = inr u.
Proof.
  intros Hpre Hgen. unfold select_url. rewrite Hgen.
  destruct s; simpl; [rewrite Hpre|]; reflexivity.
Qed.

(** C9, as the scripts have it.  In the scenario the script sends exactly
    three status queries, one for each answer, the third bringing
    [COMPLETED]; it then saves the downloaded bytes, which are not empty,
    and ends with status zero. *)
Theorem three_answers_three_queries s w data :
  three_answers s w data →
  status_queries (trace (run s w)) = 3%nat ∧
  exit_status (run s w) = Some 0 ∧
  writes (trace (run s w)) = [(file_name s w, data)] ∧
  files (run s w) !! file_name s w = Some data ∧
  (0 < length data)%nat.
Proof.
  intros (t0 & r & p & r1 & r2 & r3 & r4 & Hsubmit & Hc & Hid & Hst
          & Hs1 & Hc1 & Hst1 & Hs2 & Hc2 & Hst2 & Hs3 & Hc3 & Hst3 & Hgen
          & Hs4 & Hc4 & Hdata & Hne & Hdisk & Htime).
  destruct (submit_facts _ _ _ _ _ Hsubmit) as (Hsub & Hfs & Hclock & Hnreq & Hnsleep).
  rewrite (run_accepted s w t0 r p _ _ Hsubmit Hc Hid Hst).
  destruct (budget_three s) as [fuel ->].
  assert (Hlat : ∀ n, 0 ≤ Z.of_N (latency w n)) by (intros; lia).
  assert (Hover : ∀ n, 0 ≤ Z.of_N (oversleep w n)) by (intros; lia).
  rewrite (pass_answered s w t0 _ _ _ p r1 (JStr "IN_PROGRESS"));
    [|reflexivity|rewrite Hnreq; exact Hs1|assumption|assumption|].
  2:{ unfold answered, woke. rewrite Hnreq, Hnsleep.
      unfold seconds, interval in *. lia. }
  cbn [generation_ok].
  set (p1 := extend p _ _ _ _).
  rewrite (pass_answered s w t0 _ _ _ p1 r2 (JStr "IN_PROGRESS"));
    [|reflexivity|cbn; rewrite Hnreq; exact Hs2|assumption|assumption|].
  2:{ unfold answered, woke. cbn. unfold answered, woke.
      rewrite Hnreq, Hnsleep. unfold seconds, interval in *. lia. }
  cbn [generation_ok].
  set (p2 := extend p1 _ _ _ _).
  rewrite (pass_answered s w t0 _ _ _ p2 r3 (JStr "COMPLETED"));
    [|reflexivity|cbn; rewrite Hnreq; exact Hs3|assumption|assumption|].
  2:{ unfold answered, woke. cbn. unfold answered, woke. cbn.
      unfold answered, woke.
      rewrite Hnreq, Hnsleep. unfold seconds, interval in *. lia. }
  cbn [generation_ok].
  set (p3 := extend p2 _ _ _ _).
  rewrite while_loop_done by reflexivity. cbn [generation_ok response].
  assert (Hurl : select_url s r3 = inr "https://x/y.jpg")
    by (apply select_single; [reflexivity|assumption]).
  assert (Hn3 : nreq p3 = 5%nat) by (cbn; rewrite Hnreq; reflexivity).
  unfold download; exec. rewrite Hurl. simpl. rewrite Hnreq. simpl.
  rewrite Hs4. simpl. replace (status_code r4 =? 200) with true by lia.
  rewrite Hdisk. simpl. rewrite Hdata.
  split; [|split; [reflexivity|split; [|split]]].
  - rewrite <- !app_assoc. rewrite status_queries_app.
    rewrite submitting_queries by assumption. reflexivity.
  - rewrite <- !app_assoc. rewrite writes_app.
    rewrite submitting_writes by assumption. reflexivity.
  - apply lookup_insert_eq.
  - destruct data; [congruence|simpl; lia].
Qed.

Lemma three_answers_three_queries_witness :
  status_queries (trace (run edit_image three_polls)) = 3%nat ∧
  exit_status (run edit_image three_polls) = Some 0 ∧
  writes (trace (run edit_image three_polls)) =
    [(file_name edit_image three_polls, picture)] ∧
  files (run edit_image three_polls) !! file_name edit_image three_polls
    = Some picture ∧
  (0 < length picture)%nat.
Proof.
  apply (three_answers_three_queries edit_image three_polls picture).
  exists 0, (ok_json (job_body "abc123" "IN_PROGRESS" [])),
    (submit edit_image three_polls (start three_polls)).2,
    (ok_json (job_body "abc123" "IN_PROGRESS" [])),
    (ok_json (job_body "abc123" "IN_PROGRESS" [])),
    (ok_json (job_body "abc123" "COMPLETED" [JStr "https://x/y.jpg"])),
    (ok_bytes picture).
  repeat (split; [vm_compute; first [reflexivity|discriminate]|]).
  vm_compute. discriminate.
Defined.

(** C9 as it is written fails on the count: with the answers [IN_PROGRESS],
    [IN_PROGRESS], [COMPLETED] the script sends three status queries, at
    2 s, 4 s and 6 s, not two. *)
Lemma three_queries_counterexample :
  query_log (trace (run edit_image three_polls)) =
    [(2000, 200); (4000, 200); (6000, 200)] ∧
  status_queries (trace (run edit_image three_polls)) ≠ 2%nat ∧
  writes (trace (run edit_image three_polls)) =
    [("/srv/app/generated_image.jpg", picture)].
Proof.
  split; [vm_compute; reflexivity|].
  split; [vm_compute; discriminate|vm_compute; reflexivity].
Qed.

(** ** C5: the location that is downloaded *)

Lemma keep_prefixed_strings pre us :
  keep_prefixed pre (JStr <$> us) = inr (List.filter (String.prefix pre) us).
Proof.
  induction us as [|u us IH]; [reflexivity|].
  change (JStr <$> u :: us) with (JStr u :: (JStr <$> us)).
  cbn [keep_prefixed List.filter]. rewrite IH. reflexivity.
Qed.

(** [1_edit_image.py] on a list of strings: the first entry that starts with
    [https://], and [IndexError] when there is none. *)
Lemma select_url_edit_image r us :
  data_field r "generated" = inr (JArr (JStr <$> us)) →
  select_url edit_image r =
  first_of (List.filter (String.prefix "https://") us).
Proof.
  intros Hgen. unfold select_url. rewrite Hgen.
  cbn [comprehension]. rewrite keep_prefixed_strings. reflexivity.
Qed.

(** [1_gen_video.py] on the same list: the first entry, whatever it is. *)
Lemma select_url_gen_video r u us :
  data_field r "generated" = inr (JArr (JStr <$> (u :: us))) →
  select_url gen_video r = inr u.
Proof. intros Hgen. unfold select_url. rewrite Hgen. reflexivity. Qed.

(** No entry that starts with [https://]: [1_edit_image.py] ends in an
    [IndexError] before any download, and writes nothing. *)
Lemma download_without_https w r p us :
  data_field r "generated" = inr (JArr (JStr <$> us)) →
  List.filter (String.prefix "https://") us = [] →
  download edit_image w r p =
  (Raised IndexError,
   extend p (now p) (nreq p) (nsleep p) [(now p, EPrint MsgCompleted)]).
Proof.
  intros Hgen Hnone. unfold download; exec.
  rewrite (select_url_edit_image r us Hgen), Hnone. reflexivity.
Qed.

(** C5 on [1_gen_video.py], where it fails: of the two locations of the
    completed job the script takes the first as it is, [s3://bucket/out.bin],
    and dies in the [requests.get] without a file; [1_edit_image.py], given
    the same job, skips it for [https://cdn.example/out.bin] and saves what
    it downloads. *)
Theorem first_location_unfiltered :
  select_url gen_video (ok_json two_locations) = inr "s3://bucket/out.bin" ∧
  select_url edit_image (ok_json two_locations)
    = inr "https://cdn.example/out.bin" ∧
  ending (run gen_video mixed_locations) = Raised RequestException ∧
  writes (trace (run gen_video mixed_locations)) = [] ∧
  exit_status (run edit_image mixed_locations) = Some 0 ∧
  writes (trace (run edit_image mixed_locations)) =
    [("/srv/app/generated_image.jpg", picture)].
Proof. repeat split; vm_compute; reflexivity. Qed.

(** ** Every run ends *)

Theorem run_total s w : ending (run s w) ≠ Starved.
Proof.
  destruct (run_cases s w); try discriminate.
  match goal with H : fetched _ _ _ _ _ |- _ => destruct H end; discriminate.
Qed.

(** * More of the scripts *)

(** ** Before the submission *)

(** The script up to the submission, written out. *)
Lemma submit_eq s w :
  let q0 := GetUrl (reference_url s) in
  let t0 := boot w + Z.of_N (latency w 0) in
  submit s w (start w) =
  match serve w 0 q0 with
  | Fails e =>
      (Raised e,
       {| now := t0; nreq := 1; nsleep := 0;
          log := [(t0, ERequest q0 (Fails e))]; fs := fs0 w |})
  | Reply r0 =>
      if status_code r0 =? 200
      then
        let q1 := PostJob (API_URL s) (payload s (content r0)) in
        let t1 := t0 + Z.of_N (latency w 1) in
        let p1 :=
          {| now := t1; nreq := 2; nsleep := 0;
             log := [(t0, ERequest q0 (Reply r0)); (t0, EPrint MsgReference);
                     (t0, ETime); (t1, ERequest q1 (serve w 1 q1))];
             fs := fs0 w |} in
        match serve w 1 q1 with
        | Reply r => (Done (t0, r), p1)
        | Fails e => (Raised e, p1)
        end
      else
        (Raised NameError,
         {| now := t0; nreq := 1; nsleep := 0;
            log := [(t0, ERequest q0 (Reply r0))]; fs := fs0 w |})
  end.
Proof.
  unfold submit; exec.
  destruct (serve w 0%nat _) as [r0|e]; simpl; [|reflexivity].
  destruct (status_code r0 =? 200); simpl; [|reflexivity].
  destruct (serve w 1%nat _) as [r|e]; reflexivity.
Qed.

(** X1.  When the reference picture does not come back with 200 the base64
    variable is never bound: building the payload raises [NameError], the
    run ends there with status 1, and neither a submission nor any other
    request is sent, nor a file touched. *)
Theorem reference_refused s w r0 :
  serve w 0 (GetUrl (reference_url s)) = Reply r0 →
  status_code r0 ≠ 200 →
  ending (run s w) = Raised NameError ∧
  exit_status (run s w) = Some 1 ∧
  trace (run s w) =
    [(boot w + Z.of_N (latency w 0),
      ERequest (GetUrl (reference_url s)) (Reply r0))] ∧
  files (run s w) = fs0 w.
Proof.
  intros Hserve Hcode.
  assert (Hrun : run s w =
    {| ending := Raised NameError;
       trace := [(boot w + Z.of_N (latency w 0),
                  ERequest (GetUrl (reference_url s)) (Reply r0))];
       files := fs0 w |}).
  { unfold run, main, bind. rewrite submit_eq. cbv zeta. rewrite Hserve.
    replace (status_code r0 =? 200) with false by lia. reflexivity. }
  rewrite Hrun. auto.
Qed.

Lemma reference_refused_witness :
  ending (run gen_video no_reference) = Raised NameError ∧
  exit_status (run gen_video no_reference) = Some 1 ∧
  trace (run gen_video no_reference) =
    [(boot no_reference + Z.of_N (latency no_reference 0),
      ERequest (GetUrl (reference_url gen_video)) (Reply (error_json 404 JNull)))] ∧
  files (run gen_video no_reference) = fs0 no_reference.
Proof.
  apply (reference_refused gen_video no_reference (error_json 404 JNull));
    [reflexivity | discriminate].
Defined.

Lemma submissions_app a b :
  submissions (a ++ b) = (submissions a + submissions b)%nat.
Proof. unfold submissions. rewrite List.filter_app. apply length_app. Qed.

Lemma polling_submissions evs : Forall polling evs → submissions evs = 0%nat.
Proof.
  induction 1 as [|[t e] evs H _ IH]; [reflexivity|].
  destruct e as [[]| | |[]|]; cbv in H; try tauto; exact IH.
Qed.

Lemma fetched_submissions s w r p x :
  fetched s w r p x → submissions (log x.2) = submissions (log p).
Proof.
  destruct 1; cbn [snd log extend]; rewrite submissions_app;
    match goal with
    | |- context [submissions (?a :: ?b)] =>
        change (submissions (a :: b)) with 0%nat
    end; lia.
Qed.

Lemma fetched_events s w r p x :
  fetched s w r p x →
  ∃ post, log x.2 = log p ++ post ∧
          ∀ t u pl a, (t, ERequest (PostJob u pl) a) ∉ post.
Proof.
  destruct 1; cbn [snd log extend]; eexists; (split; [reflexivity|]);
    intros t' u pl a Hin; in_list Hin.
Qed.

(** What the log of the submission holds of submissions. *)
Lemma submit_submissions s w :
  let x := submit s w (start w) in
  (submissions (log x.2) ≤ 1)%nat ∧
  ∀ t u pl a, (t, ERequest (PostJob u pl) a) ∈ log x.2 →
    u = API_URL s ∧
    ∃ r0, serve w 0 (GetUrl (reference_url s)) = Reply r0 ∧
          status_code r0 = 200 ∧
          pl = payload s (content r0) ∧
          a = serve w 1 (PostJob u pl).
Proof.
  rewrite submit_eq. cbv zeta.
  destruct (serve w 0%nat _) as [r0|e] eqn:H0.
  - destruct (status_code r0 =? 200) eqn:Hc.
    + assert (Hall : ∀ x : result (Z * Response),
        let p1 := {| now := boot w + Z.of_N (latency w 0) + Z.of_N (latency w 1);
                     nreq := 2; nsleep := 0;
                     log := [(boot w + Z.of_N (latency w 0),
                              ERequest (GetUrl (reference_url s)) (Reply r0));
                             (boot w + Z.of_N (latency w 0), EPrint MsgReference);
                             (boot w + Z.of_N (latency w 0), ETime);
                             (boot w + Z.of_N (latency w 0) + Z.of_N (latency w 1),
                              ERequest (PostJob (API_URL s) (payload s (content r0)))
                                (serve w 1 (PostJob (API_URL s) (payload s (content r0)))))];
                     fs := fs0 w |} in
        (submissions (log (x, p1).2) ≤ 1)%nat ∧
        ∀ t u pl a, (t, ERequest (PostJob u pl) a) ∈ log (x, p1).2 →
          u = API_URL s ∧
          ∃ r0', Reply r0 = Reply r0' ∧ status_code r0' = 200 ∧
                 pl = payload s (content r0') ∧
                 a = serve w 1 (PostJob u pl)).
      { intros x p1. split; [cbv; lia|].
        intros t u pl a Hin. cbn [snd log p1] in Hin. in_list Hin.
        injection Hin as _ -> -> ->. split; [reflexivity|].
        exists r0. repeat split; auto. lia. }
      destruct (serve w 1%nat _); apply Hall.
    + split; [cbv; lia|]. intros t u pl a Hin. simpl in Hin. in_list Hin.
  - split; [cbv; lia|]. intros t u pl a Hin. simpl in Hin. in_list Hin.
Qed.

(** X2.  A run submits at most once, and never retries: if a [requests.post]
    is in the log it is the second request of the run, sent to [API_URL]
    after the reference picture came back with 200, and its payload is built
    from that picture's bytes. *)
Theorem one_submission s w :
  (submissions (trace (run s w)) ≤ 1)%nat ∧
  ∀ t u pl a, (t, ERequest (PostJob u pl) a) ∈ trace (run s w) →
    u = API_URL s ∧
    ∃ r0, serve w 0 (GetUrl (reference_url s)) = Reply r0 ∧
          status_code r0 = 200 ∧
          pl = payload s (content r0) ∧
          a = serve w 1 (PostJob u pl).
Proof.
  pose proof (submit_submissions s w) as Hsubm. cbv zeta in Hsubm.
  assert (Hplain : ∀ p evs,
    p = (submit s w (start w)).2 → Forall polling evs →
    ∀ post, (∀ t u pl a, (t, ERequest (PostJob u pl) a) ∉ post) →
    submissions post = 0%nat →
    (submissions (log p ++ evs ++ post) ≤ 1)%nat ∧
    ∀ t u pl a, (t, ERequest (PostJob u pl) a) ∈ log p ++ evs ++ post →
      u = API_URL s ∧
      ∃ r0, serve w 0 (GetUrl (reference_url s)) = Reply r0 ∧
            status_code r0 = 200 ∧
            pl = payload s (content r0) ∧
            a = serve w 1 (PostJob u pl)).
  { intros p evs -> Hpoll post Hpost Hnone. destruct Hsubm as [Hle Hin]. split.
    - rewrite !submissions_app, (polling_submissions evs Hpoll), Hnone. lia.
    - intros t u pl a H. rewrite !elem_of_app in H.
      destruct H as [H|[H|H]]; [eauto| |destruct (Hpost _ _ _ _ H)].
      rewrite Forall_forall in Hpoll. apply Hpoll in H. destruct H. }
  assert (Hnil : ∀ t u pl a, (t, ERequest (PostJob u pl) a) ∉ @nil (Z * event)).
  { intros t u pl a H. in_list H. }
  pose proof (run_cases s w) as Hran.
  remember (run s w) as o eqn:Ho. clear Ho.
  destruct Hran as [e p1 H1|t1 r1 p1 e H1 Hc1 Hmsg|t1 r1 p1 msg H1 Hc1 Hmsg
    |t1 r1 p1 e H1 Hc1 Hjob
    |t1 r1 p1 id st1 e p' evs H1 Hc1 Hid Hst1 Hloop Hlog Hfs' Hpoll Hquiet
    |t1 r1 p1 id st1 l p' evs H1 Hc1 Hid Hst1 Hloop Hlog Hfs' Hpoll Hok Htime Hpast
    |t1 r1 p1 id st1 l p' evs x H1 Hc1 Hid Hst1 Hloop Hlog Hfs' Hpoll Hok Hdone
       Hquiet Hseen Hfetch];
    assert (Hp : p1 = (submit s w (start w)).2) by (rewrite H1; reflexivity);
    unfold crashed, finish; cbn [trace].
  - specialize (Hplain p1 [] Hp ltac:(constructor) [] Hnil eq_refl).
    rewrite !app_nil_r in Hplain. exact Hplain.
  - specialize (Hplain p1 [] Hp ltac:(constructor) [] Hnil eq_refl).
    rewrite !app_nil_r in Hplain. exact Hplain.
  - apply (Hplain p1 [] Hp ltac:(constructor)); [|reflexivity].
    intros t u pl a H. in_list H.
  - specialize (Hplain p1 [] Hp ltac:(constructor) [] Hnil eq_refl).
    rewrite !app_nil_r in Hplain. exact Hplain.
  - rewrite Hlog. specialize (Hplain p1 evs Hp Hpoll [] Hnil eq_refl).
    rewrite !app_nil_r in Hplain. exact Hplain.
  - rewrite Hlog. specialize (Hplain p1 evs Hp Hpoll [] Hnil eq_refl).
    rewrite !app_nil_r in Hplain. exact Hplain.
  - destruct (fetched_events _ _ _ _ _ Hfetch) as (post & Hpost & Hno).
    pose proof (fetched_submissions _ _ _ _ _ Hfetch) as Hcount.
    rewrite Hpost, Hlog, <- app_assoc.
    apply (Hplain p1 evs Hp Hpoll post Hno).
    rewrite Hpost, submissions_app in Hcount. lia.
Qed.

(** ** How often and how fast the loop asks *)

Lemma excused_queries w r p : status_queries (excused w r p) = 0%nat.
Proof. reflexivity. Qed.

(** Whatever the fuel, the status queries but the last were each followed by
    a clock reading within the timeout, two seconds or more after the one
    before. *)
Lemma while_loop_queries s w t0 id fuel l p0 :
  ∃ evs, log (while_loop s w fuel t0 id l p0).2 = log p0 ++ evs ∧
         (Z.of_nat (status_queries evs) - 1) * seconds interval
         ≤ Z.max 0 (seconds (timeout s) - (now p0 - t0)).
Proof.
  set (I := λ (_ : Loop) (p : Proc),
         ∃ evs, log p = log p0 ++ evs ∧
                Z.of_nat (status_queries evs) * seconds interval ≤ now p - now p0 ∧
                (status_queries evs ≠ 0%nat → now p - t0 ≤ seconds (timeout s))).
  set (Q := λ (_ : result Loop) (p : Proc),
         ∃ evs, log p = log p0 ++ evs ∧
                (Z.of_nat (status_queries evs) - 1) * seconds interval
                ≤ Z.max 0 (seconds (timeout s) - (now p0 - t0))).
  assert (Hsec : seconds interval = 2000) by reflexivity.
  assert (Hsec2 : seconds 2 = 2000) by reflexivity.
  assert (Hend : ∀ l1 p1, I l1 p1 → ∀ x, Q x p1).
  { intros l1 p1 (evs & Hlog & Hn & Hin) x. exists evs. split; [assumption|].
    destruct (status_queries evs) as [|n] eqn:Hq; [lia|].
    specialize (Hin ltac:(discriminate)). lia. }
  apply (while_rule s w t0 id I Q);
    [intros l1 p1 HI _; exact (Hend l1 p1 HI _)
    | |intros l1 p1 HI; exact (Hend l1 p1 HI _)|]; unfold I, Q.
  - intros l1 p1 (evs & Hlog & Hn & Hin) _.
    pose proof (pass_times w p1) as (Ht1 & Ht2 & Ht3).
    assert (Hstep : Z.of_nat (status_queries evs) * seconds interval
                    ≤ Z.max 0 (seconds (timeout s) - (now p0 - t0))).
    { destruct (status_queries evs) as [|n] eqn:Hq; [lia|].
      specialize (Hin ltac:(discriminate)). lia. }
    assert (Hraised : ∀ t nr ns, ∃ evs', 
      log (extend p1 t nr ns (asked s w id l1 p1)) = log p0 ++ evs' ∧
      (Z.of_nat (status_queries evs') - 1) * seconds interval
      ≤ Z.max 0 (seconds (timeout s) - (now p0 - t0))).
    { intros t nr ns. exists (evs ++ asked s w id l1 p1). cbn [log extend].
      rewrite Hlog, <- app_assoc. split; [reflexivity|].
      rewrite status_queries_app, asked_queries. lia. }
    assert (Hchecked : ∀ t l' nr ns new,
      now p1 + seconds interval ≤ t →
      status_queries new = 1%nat →
      match checked s t0 t l' p1 nr ns new with
      | (Done (Continue _), p') =>
          ∃ evs', log p' = log p0 ++ evs' ∧
            Z.of_nat (status_queries evs') * seconds interval ≤ now p' - now p0 ∧
            (status_queries evs' ≠ 0%nat → now p' - t0 ≤ seconds (timeout s))
      | (_, p') =>
          ∃ evs', log p' = log p0 ++ evs' ∧
            (Z.of_nat (status_queries evs') - 1) * seconds interval
            ≤ Z.max 0 (seconds (timeout s) - (now p0 - t0))
      end).
    { intros t l' nr ns new Ht Hone. unfold checked.
      destruct (seconds (timeout s) <? t - t0) eqn:Hlate; cbn [log extend now].
      - eexists. rewrite Hlog, <- app_assoc. split; [reflexivity|].
        rewrite !status_queries_app, Hone.
        change (status_queries [(t, ETime); (t, EPrint MsgTimeout)]) with 0%nat. lia.
      - eexists. rewrite Hlog, <- app_assoc. split; [reflexivity|].
        rewrite !status_queries_app, Hone.
        change (status_queries [(t, ETime)]) with 0%nat. split; lia. }
    rewrite tick_eq.
    destruct (serve w (nreq p1) _) as [r|e]; [|apply Hraised].
    destruct (status_code r =? 200).
    + destruct (data_field r "status"); [apply Hraised|].
      apply Hchecked; [lia|apply asked_queries].
    + apply Hchecked; [lia|].
      rewrite status_queries_app, asked_queries, excused_queries. reflexivity.
  - exists []. rewrite app_nil_r. split; [reflexivity|].
    change (status_queries []) with 0%nat. split; [lia|tauto].
Qed.

Lemma main_queries_in_loop s w fuel :
  status_queries (log (main s w fuel (start w)).2) = 0%nat ∨
  ∃ t0 r p id l evs,
    submit s w (start w) = (Done (t0, r), p) ∧
    log (while_loop s w fuel t0 id l p).2 = log p ++ evs ∧
    status_queries (log (main s w fuel (start w)).2) = status_queries evs.
Proof.
  pose proof (submit_post s w) as (Hsub & _).
  unfold main, bind.
  destruct (submit s w (start w)) as [[[t0 r]|e|] p] eqn:Hsubmit;
    cbn [fst snd] in *; [|left; apply submitting_queries, Hsub..].
  destruct (status_code r =? 200).
  - unfold follow, bind, lift, ret, raise.
    destruct (data_field r "task_id") as [e|id];
      [left; apply submitting_queries, Hsub|].
    destruct (data_field r "status") as [e|st];
      [left; apply submitting_queries, Hsub|].
    cbv beta iota.
    set (l0 := {| response := r; status := st; generation_ok := true |}).
    destruct (while_loop_queries s w t0 id fuel l0 p) as (evs & Hlog & _).
    right. exists t0, r, p, id, l0, evs. split; [reflexivity|].
    split; [exact Hlog|].
    assert (Hloop : status_queries (log (while_loop s w fuel t0 id l0 p).2)
                    = status_queries evs).
    { rewrite Hlog, status_queries_app, submitting_queries by assumption.
      reflexivity. }
    destruct (while_loop s w fuel t0 id l0 p) as [[l| |] p'];
      cbn [fst snd] in *; try exact Hloop.
    destruct (generation_ok l); [|exact Hloop].
    rewrite (fetched_queries _ _ _ _ _ (download_cases s w (response l) p')).
    exact Hloop.
  - left. unfold report, bind, lift, ret, raise.
    destruct (message_of r) as [e|msg]; [apply submitting_queries, Hsub|].
    unfold print, record, ret. cbn [snd log].
    rewrite status_queries_app, submitting_queries by assumption. reflexivity.
Qed.

(** X3.  The clock bounds the status queries, not a count of passes: with
    any allowance of passes, however large, the script sends at most
    [timeout / 2 + 1] status queries, 151 for [1_edit_image.py] and 301 for
    [1_gen_video.py]; so does a run, whose own allowance is never used up. *)
Theorem status_queries_bounded s w :
  (∀ fuel,
     Z.of_nat (status_queries (log (main s w fuel (start w)).2))
     ≤ timeout s / interval + 1) ∧
  Z.of_nat (status_queries (trace (run s w))) ≤ timeout s / interval + 1 ∧
  ending (run s w) ≠ Starved.
Proof.
  assert (Hany : ∀ fuel,
     Z.of_nat (status_queries (log (main s w fuel (start w)).2))
     ≤ timeout s / interval + 1).
  { intros fuel.
    destruct (main_queries_in_loop s w fuel)
      as [->|(t0 & r & p & id & l & evs & Hsubmit & Hlog & ->)].
    { destruct s; cbv; discriminate. }
    destruct (submit_facts _ _ _ _ _ Hsubmit) as (_ & _ & Hclock & _).
    destruct (while_loop_queries s w t0 id fuel l p) as (evs' & Hlog' & Hbound).
    rewrite Hlog in Hlog'. apply app_inv_head in Hlog' as <-.
    destruct s;
      [change (timeout edit_image / interval) with 150
      |change (timeout gen_video / interval) with 300];
      unfold seconds, timeout, interval in Hbound; lia. }
  split; [exact Hany|]. split; [apply (Hany (budget s))|apply run_total].
Qed.

Lemma query_log_app a b : query_log (a ++ b) = query_log a ++ query_log b.
Proof. apply omap_app. Qed.

Lemma submitting_query_log tr : Forall submitting tr → query_log tr = [].
Proof.
  induction 1 as [|[t e] evs H _ IH]; [reflexivity|].
  destruct e as [[]| | |[]|]; cbv in H; try tauto; exact IH.
Qed.

Lemma fetched_query_log s w r p x :
  fetched s w r p x → query_log (log x.2) = query_log (log p).
Proof.
  destruct 1; cbn [snd log extend]; rewrite query_log_app;
    match goal with
    | |- context [query_log (?a :: ?b)] =>
        change (query_log (a :: b)) with (@nil (Z * Z))
    end; apply app_nil_r.
Qed.

Lemma asked_times s w id l p :
  (query_log (asked s w id l p)).*1 = [answered w p].
Proof.
  unfold asked, query_log, status_query. cbn [omap list_omap query_of snd fst].
  destruct (serve w (nreq p) _); reflexivity.
Qed.

Lemma gaps_snoc (d a : Z) : ∀ ts,
  Forall (λ t, t + d ≤ a) ts →
  Forall (λ g, d ≤ g) (gaps ts) →
  Forall (λ g, d ≤ g) (gaps (ts ++ [a])).
Proof.
  induction ts as [|t ts IH]; intros Hle Hgaps; [constructor|].
  destruct ts as [|t' ts].
  - simpl. inversion Hle; subst. repeat constructor. lia.
  - change (gaps ((t :: t' :: ts) ++ [a]))
      with ((t' - t) :: gaps ((t' :: ts) ++ [a])).
    change (gaps (t :: t' :: ts)) with ((t' - t) :: gaps (t' :: ts)) in Hgaps.
    inversion Hgaps; subst. inversion Hle; subst. constructor; auto.
Qed.

(** Whatever the fuel, each status query of the loop is answered two seconds
    or more after the one before. *)
Lemma while_loop_spacing s w t0 id fuel l p0 :
  ∃ evs, log (while_loop s w fuel t0 id l p0).2 = log p0 ++ evs ∧
         Forall (λ g, seconds interval ≤ g) (gaps (query_log evs).*1).
Proof.
  set (I := λ (_ : Loop) (p : Proc),
         ∃ evs, log p = log p0 ++ evs ∧
                Forall (λ t, t ≤ now p) (query_log evs).*1 ∧
                Forall (λ g, seconds interval ≤ g) (gaps (query_log evs).*1)).
  set (Q := λ (_ : result Loop) (p : Proc),
         ∃ evs, log p = log p0 ++ evs ∧
                Forall (λ g, seconds interval ≤ g) (gaps (query_log evs).*1)).
  assert (Hsec : seconds interval = 2000 ∧ seconds 2 = 2000) by (split; reflexivity).
  assert (Hend : ∀ l1 p1, I l1 p1 → ∀ x, Q x p1).
  { intros l1 p1 (evs & Hlog & _ & Hg) x. exists evs. auto. }
  apply (while_rule s w t0 id I Q);
    [intros l1 p1 HI _; exact (Hend l1 p1 HI _)
    | |intros l1 p1 HI; exact (Hend l1 p1 HI _)|]; unfold I, Q.
  - intros l1 p1 (evs & Hlog & Hle & Hg) _.
    pose proof (pass_times w p1) as (Ht1 & Ht2 & Ht3).
    assert (Hnew : ∀ tail, query_log tail = [] →
      (query_log (evs ++ asked s w id l1 p1 ++ tail)).*1
      = (query_log evs).*1 ++ [answered w p1]).
    { intros tail Htail.
      rewrite !query_log_app, Htail, app_nil_r, fmap_app, asked_times.
      reflexivity. }
    assert (Hgaps : Forall (λ g, seconds interval ≤ g)
                      (gaps ((query_log evs).*1 ++ [answered w p1]))).
    { apply gaps_snoc; [|assumption].
      eapply Forall_impl; [exact Hle|]. simpl. intros t Ht. lia. }
    assert (Hle' : ∀ t, answered w p1 ≤ t →
                   Forall (λ u, u ≤ t) ((query_log evs).*1 ++ [answered w p1])).
    { intros t Ht. apply Forall_app. split.
      - eapply Forall_impl; [exact Hle|]. simpl. intros u Hu. lia.
      - repeat constructor. assumption. }
    assert (Hraised : ∀ t nr ns, ∃ evs',
      log (extend p1 t nr ns (asked s w id l1 p1)) = log p0 ++ evs' ∧
      Forall (λ g, seconds interval ≤ g) (gaps (query_log evs').*1)).
    { intros t nr ns. exists (evs ++ asked s w id l1 p1 ++ []). cbn [log extend].
      rewrite Hlog, app_nil_r, <- app_assoc. split; [reflexivity|].
      rewrite <- (app_nil_r (asked s w id l1 p1)), Hnew by reflexivity.
      assumption. }
    assert (Hchecked : ∀ t l' nr ns tail,
      answered w p1 ≤ t → query_log tail = [] →
      match checked s t0 t l' p1 nr ns (asked s w id l1 p1 ++ tail) with
      | (Done (Continue _), p') =>
          ∃ evs', log p' = log p0 ++ evs' ∧
            Forall (λ u, u ≤ now p') (query_log evs').*1 ∧
            Forall (λ g, seconds interval ≤ g) (gaps (query_log evs').*1)
      | (_, p') =>
          ∃ evs', log p' = log p0 ++ evs' ∧
            Forall (λ g, seconds interval ≤ g) (gaps (query_log evs').*1)
      end).
    { intros t l' nr ns tail Ht Htail. unfold checked.
      destruct (seconds (timeout s) <? t - t0); cbn [log extend now].
      - exists (evs ++ asked s w id l1 p1 ++ tail ++ [(t, ETime); (t, EPrint MsgTimeout)]).
        rewrite Hlog, <- !app_assoc. split; [reflexivity|].
        rewrite Hnew; [assumption|].
        rewrite query_log_app, Htail. reflexivity.
      - exists (evs ++ asked s w id l1 p1 ++ tail ++ [(t, ETime)]).
        rewrite Hlog, <- !app_assoc. split; [reflexivity|].
        rewrite Hnew; [auto|].
        rewrite query_log_app, Htail. reflexivity. }
    rewrite tick_eq.
    destruct (serve w (nreq p1) _) as [r|e]; [|apply Hraised].
    destruct (status_code r =? 200).
    + destruct (data_field r "status"); [apply Hraised|].
      rewrite <- (app_nil_r (asked s w id l1 p1)).
      apply Hchecked; [lia|reflexivity].
    + apply Hchecked; [lia|reflexivity].
  - exists []. rewrite app_nil_r. repeat split; constructor.
Qed.

Lemma run_query_log s w :
  query_log (trace (run s w)) = [] ∨
  ∃ t0 r p id l evs,
    submit s w (start w) = (Done (t0, r), p) ∧
    log (while_loop s w (budget s) t0 id l p).2 = log p ++ evs ∧
    query_log (trace (run s w)) = query_log evs.
Proof.
  pose proof (run_cases s w) as Hran.
  remember (run s w) as o eqn:Ho. clear Ho.
  destruct Hran as [e p1 H1|t1 r1 p1 e H1 Hc1 Hmsg|t1 r1 p1 msg H1 Hc1 Hmsg
    |t1 r1 p1 e H1 Hc1 Hjob
    |t1 r1 p1 id st1 e p' evs H1 Hc1 Hid Hst1 Hloop Hlog Hfs' Hpoll Hquiet
    |t1 r1 p1 id st1 l p' evs H1 Hc1 Hid Hst1 Hloop Hlog Hfs' Hpoll Hok Htime Hpast
    |t1 r1 p1 id st1 l p' evs x H1 Hc1 Hid Hst1 Hloop Hlog Hfs' Hpoll Hok Hdone
       Hquiet Hseen Hfetch];
    [destruct (unsubmitted_facts _ _ _ _ H1) as (Hsub & Hfs)
    |destruct (submit_facts _ _ _ _ _ H1) as (Hsub & Hfs & _)..];
    unfold crashed, finish; cbn [trace].
  - left. apply submitting_query_log, Hsub.
  - left. apply submitting_query_log, Hsub.
  - left. rewrite query_log_app, submitting_query_log by assumption. reflexivity.
  - left. apply submitting_query_log, Hsub.
  - right. eexists t1, r1, p1, id, _, evs. split; [exact H1|].
    rewrite Hloop. cbn [snd]. split; [exact Hlog|].
    rewrite Hlog, query_log_app, submitting_query_log by assumption. reflexivity.
  - right. eexists t1, r1, p1, id, _, evs. split; [exact H1|].
    rewrite Hloop. cbn [snd]. split; [exact Hlog|].
    rewrite Hlog, query_log_app, submitting_query_log by assumption. reflexivity.
  - right. eexists t1, r1, p1, id, _, evs. split; [exact H1|].
    rewrite Hloop. cbn [snd]. split; [exact Hlog|].
    rewrite (fetched_query_log _ _ _ _ _ Hfetch).
    rewrite Hlog, query_log_app, submitting_query_log by assumption. reflexivity.
Qed.

(** X4.  A run never asks for the status faster than every two seconds:
    between the answers to two consecutive status queries lie at least the
    two seconds of the sleep that opens each pass of the loop. *)
Theorem status_queries_spaced s w :
  Forall (λ g, seconds interval ≤ g)
    (gaps (query_log (trace (run s w))).*1).
Proof.
  destruct (run_query_log s w) as [->|(t0 & r & p & id & l & evs & Hsubmit & Hlog & ->)];
    [constructor|].
  destruct (while_loop_spacing s w t0 id (budget s) l p) as (evs' & Hlog' & Hgaps).
  rewrite Hlog in Hlog'. apply app_inv_head in Hlog' as <-. exact Hgaps.
Qed.

(** ** What ends a run *)

Lemma asked_fatal s w id l p :
  ∀ t ev e, (t, ev) ∈ asked s w id l p → fatal ev = Some e →
    (t, ev) = (answered w p,
               ERequest (status_query s id) (serve w (nreq p) (status_query s id))).
Proof.
  intros t ev e Hin Hf. unfold asked in Hin.
  apply elem_of_cons in Hin as [Hin|Hin]; [injection Hin as -> ->; discriminate|].
  apply elem_of_cons in Hin as [Hin|Hin]; [injection Hin as -> ->; discriminate|].
  apply elem_of_cons in Hin as [Hin|Hin]; [assumption|]. in_list Hin.
Qed.

(** Whatever the fuel, a fatal event in the loop is its last, and the loop
    raises the exception the event carries. *)
Lemma while_loop_fatal s w t0 id fuel l p0 :
  ∃ evs, log (while_loop s w fuel t0 id l p0).2 = log p0 ++ evs ∧
         ∀ t ev e, (t, ev) ∈ evs → fatal ev = Some e →
           (while_loop s w fuel t0 id l p0).1 = Raised e ∧
           ∃ evs', evs = evs' ++ [(t, ev)].
Proof.
  set (I := λ (_ : Loop) (p : Proc),
         ∃ evs, log p = log p0 ++ evs ∧ Forall (λ x, fatal x.2 = None) evs).
  set (Q := λ (x : result Loop) (p : Proc),
         ∃ evs, log p = log p0 ++ evs ∧
                ∀ t ev e, (t, ev) ∈ evs → fatal ev = Some e →
                  x = Raised e ∧ ∃ evs', evs = evs' ++ [(t, ev)]).
  assert (Hend : ∀ l1 p1, I l1 p1 → ∀ x, Q x p1).
  { intros l1 p1 (evs & Hlog & Hall) x. exists evs. split; [assumption|].
    intros t ev e Hin Hf. rewrite Forall_forall in Hall.
    specialize (Hall _ Hin). simpl in Hall. congruence. }
  apply (while_rule s w t0 id I Q);
    [intros l1 p1 HI _; exact (Hend l1 p1 HI _)
    | |intros l1 p1 HI; exact (Hend l1 p1 HI _)|].
  - intros l1 p1 (evs & Hlog & Hall) _.
    assert (Hraised : ∀ t nr ns e,
      fatal (ERequest (status_query s id) (serve w (nreq p1) (status_query s id)))
        = Some e →
      Q (Raised e) (extend p1 t nr ns (asked s w id l1 p1))).
    { intros t nr ns e He. exists (evs ++ asked s w id l1 p1). cbn [log extend].
      rewrite Hlog, <- app_assoc. split; [reflexivity|].
      intros t' ev e' Hin Hf. apply elem_of_app in Hin as [Hin|Hin].
      - rewrite Forall_forall in Hall. specialize (Hall _ Hin). simpl in Hall.
        congruence.
      - pose proof (asked_fatal _ _ _ _ _ _ _ _ Hin Hf) as Heq.
        injection Heq as -> ->. split; [congruence|].
        exists (evs ++ [(now p1, EPrint (MsgWaiting (status l1)));
                        (woke w p1, ESleep interval)]).
        rewrite <- app_assoc. reflexivity. }
    assert (Hchecked : ∀ t l' nr ns tail,
      fatal (ERequest (status_query s id) (serve w (nreq p1) (status_query s id)))
        = None →
      Forall (λ x, fatal x.2 = None) tail →
      let (r, p') := checked s t0 t l' p1 nr ns (asked s w id l1 p1 ++ tail) in
      match r with
      | Done (Continue l'') => I l'' p'
      | Done (Break l'') => Q (Done l'') p'
      | Raised e => Q (Raised e) p'
      | Starved => Q Starved p'
      end).
    { intros t l' nr ns tail Hq Htail.
      assert (Hasked : Forall (λ x, fatal x.2 = None) (asked s w id l1 p1)).
      { unfold asked. repeat constructor. exact Hq. }
      unfold checked.
      destruct (seconds (timeout s) <? t - t0).
      - apply (Hend l'). eexists. cbn [log extend].
        rewrite Hlog, <- !app_assoc. split; [reflexivity|].
        rewrite !Forall_app; repeat split; auto; repeat constructor.
      - eexists. cbn [log extend].
        rewrite Hlog, <- !app_assoc. split; [reflexivity|].
        rewrite !Forall_app; repeat split; auto; repeat constructor. }
    rewrite tick_eq.
    destruct (serve w (nreq p1) (status_query s id)) as [r|e] eqn:Hserve.
    + destruct (status_code r =? 200) eqn:Hcode.
      * destruct (data_field r "status") as [e|st] eqn:Hst.
        -- apply Hraised. unfold status_query. simpl. rewrite Hcode, Hst.
           reflexivity.
        -- rewrite <- (app_nil_r (asked s w id l1 p1)).
           apply Hchecked; [|constructor].
           unfold status_query. simpl. rewrite Hcode, Hst. reflexivity.
      * apply Hchecked; [|repeat constructor].
        unfold status_query. simpl. rewrite Hcode. reflexivity.
    + apply Hraised. reflexivity.
  - exists []. rewrite app_nil_r. split; [reflexivity|constructor].
Qed.

(** A fatal event is the last of the run, whose ending it decides. *)
Lemma fatal_event_ends_run s w t ev e :
  (t, ev) ∈ trace (run s w) → fatal ev = Some e →
  ending (run s w) = Raised e ∧ last (trace (run s w)) = Some (t, ev) ∧
  writes (trace (run s w)) = [].
Proof.
  intros Hin Hf.
  assert (Hquiet : ∀ tr, Forall submitting tr →
            (∀ t q x, (t, ERequest q (Fails x)) ∉ tr) → (t, ev) ∉ tr).
  { intros tr Hsub Hrep H. rewrite Forall_forall in Hsub.
    pose proof (Hsub _ H) as Hs.
    destruct ev as [| | |q [r|x]|]; try discriminate Hf.
    - destruct q; try discriminate Hf. exact Hs.
    - exact (Hrep _ _ _ H). }
  pose proof (run_cases s w) as Hran.
  remember (run s w) as o eqn:Ho. clear Ho.
  destruct Hran as [x p1 H1|t1 r1 p1 x H1 Hc1 Hmsg|t1 r1 p1 msg H1 Hc1 Hmsg
    |t1 r1 p1 x H1 Hc1 Hjob
    |t1 r1 p1 id st1 x p' evs H1 Hc1 Hid Hst1 Hloop Hlog Hfs' Hpoll Hquiet'
    |t1 r1 p1 id st1 l p' evs H1 Hc1 Hid Hst1 Hloop Hlog Hfs' Hpoll Hok Htime Hpast
    |t1 r1 p1 id st1 l p' evs y H1 Hc1 Hid Hst1 Hloop Hlog Hfs' Hpoll Hok Hdone
       Hquiet' Hseen Hfetch];
    unfold crashed, finish in *; cbn [trace ending] in *.
  - (* no submission *)
    rewrite submit_eq in H1. cbv zeta in H1.
    destruct (serve w 0%nat _) as [r0|x0].
    + destruct (status_code r0 =? 200).
      * destruct (serve w 1%nat _) as [r|x1]; [discriminate|].
        injection H1 as <- <-. cbn [log] in *. in_list Hin;
          injection Hin as -> ->; try discriminate Hf.
        injection Hf as ->. repeat split; reflexivity.
      * injection H1 as <- <-. cbn [log] in *. in_list Hin.
        injection Hin as -> ->. discriminate Hf.
    + injection H1 as <- <-. cbn [log] in *. in_list Hin.
      injection Hin as -> ->. injection Hf as ->. repeat split; reflexivity.
  - destruct (submit_facts _ _ _ _ _ H1) as (Hsub & _).
    destruct (Hquiet _ Hsub (λ t q x, submit_replied s w _ _ _ t q x H1) Hin).
  - destruct (submit_facts _ _ _ _ _ H1) as (Hsub & _).
    apply elem_of_app in Hin as [Hin|Hin].
    + destruct (Hquiet _ Hsub (λ t q x, submit_replied s w _ _ _ t q x H1) Hin).
    + in_list Hin. injection Hin as -> ->. discriminate Hf.
  - destruct (submit_facts _ _ _ _ _ H1) as (Hsub & _).
    destruct (Hquiet _ Hsub (λ t q x, submit_replied s w _ _ _ t q x H1) Hin).
  - (* the loop raised *)
    destruct (submit_facts _ _ _ _ _ H1) as (Hsub & _).
    destruct (while_loop_fatal s w t1 id (budget s)
                {| response := r1; status := st1; generation_ok := true |} p1)
      as (evs' & Hlog' & Hfatal).
    rewrite Hloop in Hlog', Hfatal. cbn [fst snd] in Hlog', Hfatal.
    rewrite Hlog in Hlog'. apply app_inv_head in Hlog' as <-.
    rewrite Hlog in *. apply elem_of_app in Hin as [Hin|Hin].
    + destruct (Hquiet _ Hsub (λ t q x, submit_replied s w _ _ _ t q x H1) Hin).
    + destruct (Hfatal _ _ _ Hin Hf) as (Hx & evs' & Hevs).
      split; [congruence|]. split.
      * rewrite Hevs, app_assoc. apply last_snoc.
      * rewrite writes_app, submitting_writes, polling_writes by assumption.
        reflexivity.
  - (* the timeout *)
    destruct (submit_facts _ _ _ _ _ H1) as (Hsub & _).
    destruct (while_loop_fatal s w t1 id (budget s)
                {| response := r1; status := st1; generation_ok := true |} p1)
      as (evs' & Hlog' & Hfatal).
    rewrite Hloop in Hlog', Hfatal. cbn [fst snd] in Hlog', Hfatal.
    rewrite Hlog in Hlog'. apply app_inv_head in Hlog' as <-.
    rewrite Hlog in *. apply elem_of_app in Hin as [Hin|Hin].
    + destruct (Hquiet _ Hsub (λ t q x, submit_replied s w _ _ _ t q x H1) Hin).
    + destruct (Hfatal _ _ _ Hin Hf) as (Hx & _). discriminate Hx.
  - (* the download *)
    destruct (submit_facts _ _ _ _ _ H1) as (Hsub & _).
    destruct (while_loop_fatal s w t1 id (budget s)
                {| response := r1; status := st1; generation_ok := true |} p1)
      as (evs' & Hlog' & Hfatal).
    rewrite Hloop in Hlog', Hfatal. cbn [fst snd] in Hlog', Hfatal.
    rewrite Hlog in Hlog'. apply app_inv_head in Hlog' as <-.
    assert (Hpre : (t, ev) ∉ log p').
    { rewrite Hlog. intros H. apply elem_of_app in H as [H|H].
      - destruct (Hquiet _ Hsub (λ t q x, submit_replied s w _ _ _ t q x H1) H).
      - destruct (Hfatal _ _ _ H Hf) as (Hx & _). discriminate Hx. }
    destruct Hfetch; cbn [fst snd log extend] in *;
      apply elem_of_app in Hin as [Hin|Hin]; try (destruct (Hpre Hin); fail);
      in_list Hin; injection Hin as -> ->; try discriminate Hf.
    injection Hf as ->. split; [reflexivity|]. split.
    + match goal with
      | |- last (?a ++ [?b; ?c]) = _ =>
          change (a ++ [b; c]) with (a ++ [b] ++ [c]); rewrite app_assoc;
          apply last_snoc
      end.
    + rewrite Hlog, writes_parts by assumption. reflexivity.
Qed.

(** X5.  No exception is caught anywhere: a request that raises, be it the
    reference download, the submission, a status query or the artifact
    download, is the last thing the run does, and the run ends with that
    exception and status 1, no file written. *)
Theorem request_exception_ends_run s w t q e :
  (t, ERequest q (Fails e)) ∈ trace (run s w) →
  ending (run s w) = Raised e ∧
  exit_status (run s w) = Some 1 ∧
  last (trace (run s w)) = Some (t, ERequest q (Fails e)) ∧
  writes (trace (run s w)) = [].
Proof.
  intros Hin.
  assert (Hf : fatal (ERequest q (Fails e)) = Some e) by (destruct q; reflexivity).
  destruct (fatal_event_ends_run s w t _ e Hin Hf) as (Hend & Hlast & Hw).
  unfold exit_status. rewrite Hend. auto.
Qed.

Lemma request_exception_ends_run_witness :
  ending (run edit_image connection_lost) = Raised RequestException ∧
  exit_status (run edit_image connection_lost) = Some 1 ∧
  last (trace (run edit_image connection_lost)) =
    Some (4000, ERequest (GetStatus (API_URL edit_image) (JStr "abc123"))
                  (Fails RequestException)) ∧
  writes (trace (run edit_image connection_lost)) = [].
Proof.
  apply (request_exception_ends_run edit_image connection_lost).
  vm_compute. find_in.
Defined.

(** X6.  The loop forgives a status query answered with another code than
    200, but not one answered with 200 and a body in which [data.status]
    cannot be read: the exception of that reading ends the run on the spot,
    with status 1 and no file written. *)
Theorem unreadable_status_ends_run s w t b id r e :
  (t, ERequest (GetStatus b id) (Reply r)) ∈ trace (run s w) →
  status_code r = 200 →
  data_field r "status" = inl e →
  ending (run s w) = Raised e ∧
  exit_status (run s w) = Some 1 ∧
  last (trace (run s w)) = Some (t, ERequest (GetStatus b id) (Reply r)) ∧
  writes (trace (run s w)) = [].
Proof.
  intros Hin Hcode Hst.
  assert (Hf : fatal (ERequest (GetStatus b id) (Reply r)) = Some e).
  { simpl. replace (status_code r =? 200) with true by lia. rewrite Hst.
    reflexivity. }
  destruct (fatal_event_ends_run s w t _ e Hin Hf) as (Hend & Hlast & Hw).
  unfold exit_status. rewrite Hend. auto.
Qed.

Lemma unreadable_status_ends_run_witness :
  ending (run gen_video no_data) = Raised KeyError ∧
  exit_status (run gen_video no_data) = Some 1 ∧
  last (trace (run gen_video no_data)) =
    Some (2000, ERequest (GetStatus (API_URL gen_video) (JStr "abc123"))
                  (Reply (ok_json (JObj [("message", JStr "ok")])))) ∧
  writes (trace (run gen_video no_data)) = [].
Proof.
  apply (unreadable_status_ends_run gen_video no_data);
    [vm_compute; find_in | reflexivity | reflexivity].
Defined.

(** X7.  ["Timeout reached"] is never printed early and is the last thing a
    run does: it is printed only after a submission that got its response,
    at a clock reading more than [timeout] seconds past [start_time]; no
    request and no write follows it, and the exit status is zero. *)
Theorem timeout_is_final s w :
  printed MsgTimeout (trace (run s w)) →
  ∃ t0 r p t,
    submit s w (start w) = (Done (t0, r), p) ∧
    last (trace (run s w)) = Some (t, EPrint MsgTimeout) ∧
    seconds (timeout s) < t - t0 ∧
    exit_status (run s w) = Some 0 ∧
    writes (trace (run s w)) = [].
Proof.
  intros Hp.
  assert (Hpoll0 : Forall polling []) by constructor.
  pose proof (run_cases s w) as Hran.
  remember (run s w) as o eqn:Ho. clear Ho.
  destruct Hran as [e p1 H1|t1 r1 p1 e H1 Hc1 Hmsg|t1 r1 p1 msg H1 Hc1 Hmsg
    |t1 r1 p1 e H1 Hc1 Hjob
    |t1 r1 p1 id st1 e p' evs H1 Hc1 Hid Hst1 Hloop Hlog Hfs' Hpoll Hquiet
    |t1 r1 p1 id st1 l p' evs H1 Hc1 Hid Hst1 Hloop Hlog Hfs' Hpoll Hok Htime Hpast
    |t1 r1 p1 id st1 l p' evs x H1 Hc1 Hid Hst1 Hloop Hlog Hfs' Hpoll Hok Hdone
       Hquiet Hseen Hfetch];
    [destruct (unsubmitted_facts _ _ _ _ H1) as (Hsub & Hfs)
    |destruct (submit_facts _ _ _ _ _ H1) as (Hsub & Hfs & _)..];
    unfold crashed, finish in *; cbn [trace] in *.
  - absurd_print Hsub Hpoll0 Hp.
  - absurd_print Hsub Hpoll0 Hp.
  - absurd_print Hsub Hpoll0 Hp.
  - absurd_print Hsub Hpoll0 Hp.
  - rewrite Hlog in Hp. absurd_print Hsub Hpoll Hp.
  - pose proof (while_loop_timeout_last s w t1 id (budget s)
                  {| response := r1; status := st1; generation_ok := true |}
                  p1 eq_refl l) as Hlast.
    rewrite Hloop in Hlast. cbn [fst snd] in Hlast.
    destruct (Hlast eq_refl Hok) as [pre Hpre].
    exists t1, r1, p1, (now p'). split; [exact H1|]. split.
    { rewrite Hpre. apply last_snoc. }
    split; [exact Hpast|]. split; [reflexivity|].
    rewrite Hlog, writes_app, submitting_writes, polling_writes by assumption.
    reflexivity.
  - exfalso. destruct Hfetch; cbn [snd log extend] in Hp; rewrite Hlog in Hp;
      absurd_print Hsub Hpoll Hp.
Qed.

Lemma timeout_is_final_witness :
  ∃ t0 r p t,
    submit edit_image slow_query (start slow_query) = (Done (t0, r), p) ∧
    last (trace (run edit_image slow_query)) = Some (t, EPrint MsgTimeout) ∧
    seconds (timeout edit_image) < t - t0 ∧
    exit_status (run edit_image slow_query) = Some 0 ∧
    writes (trace (run edit_image slow_query)) = [].
Proof.
  apply (timeout_is_final edit_image slow_query).
  exists 301000. vm_compute. find_in.
Defined.

(** ** The files *)

(** X8.  A run changes no file but its own artifact: every other path of
    the disk holds after the run what it held before. *)
Theorem other_files_untouched s w path :
  path ≠ file_name s w →
  files (run s w) !! path = fs0 w !! path.
Proof.
  intros Hpath.
  pose proof (run_cases s w) as Hran.
  remember (run s w) as o eqn:Ho. clear Ho.
  destruct Hran as [e p1 H1|t1 r1 p1 e H1 Hc1 Hmsg|t1 r1 p1 msg H1 Hc1 Hmsg
    |t1 r1 p1 e H1 Hc1 Hjob
    |t1 r1 p1 id st1 e p' evs H1 Hc1 Hid Hst1 Hloop Hlog Hfs' Hpoll Hquiet
    |t1 r1 p1 id st1 l p' evs H1 Hc1 Hid Hst1 Hloop Hlog Hfs' Hpoll Hok Htime Hpast
    |t1 r1 p1 id st1 l p' evs x H1 Hc1 Hid Hst1 Hloop Hlog Hfs' Hpoll Hok Hdone
       Hquiet Hseen Hfetch];
    [destruct (unsubmitted_facts _ _ _ _ H1) as (Hsub & Hfs)
    |destruct (submit_facts _ _ _ _ _ H1) as (Hsub & Hfs & _)..];
    unfold crashed, finish; cbn [files]; try congruence.
  destruct Hfetch; cbn [snd fs extend]; rewrite ?lookup_insert_ne by auto;
    congruence.
Qed.

Lemma other_files_untouched_witness :
  files (run edit_image smooth) !! "/srv/app/generated_video.mp4"
  = fs0 smooth !! "/srv/app/generated_video.mp4".
Proof.
  apply (other_files_untouched edit_image smooth). vm_compute. discriminate.
Defined.




(** ** Choosing the location *)

Lemma first_of_filter (P : string → bool) us u :
  first_of (List.filter P us) = inr u ↔
  ∃ before after, us = before ++ u :: after ∧ P u = true ∧
                  Forall (λ v, P v = false) before.
Proof.
  induction us as [|v us IH]; simpl.
  - split; [discriminate|]. intros (before & after & H & _).
    destruct before; discriminate H.
  - destruct (P v) eqn:Hv; simpl.
    + split.
      * intros [= ->]. exists [], us. repeat split; auto.
      * intros ([|b before] & after & H & Hu & Hall).
        -- injection H as -> _. reflexivity.
        -- injection H as -> _. inversion Hall; subst. congruence.
    + rewrite IH. split.
      * intros (before & after & -> & Hu & Hall).
        exists (v :: before), after. repeat split; auto.
      * intros ([|b before] & after & H & Hu & Hall).
        -- injection H as -> _. congruence.
        -- injection H as -> ->. inversion Hall; subst.
           exists before, after. auto.
Qed.

Lemma first_of_filter_none (P : string → bool) us :
  first_of (List.filter P us) = inl IndexError ↔ Forall (λ v, P v = false) us.
Proof.
  induction us as [|v us IH]; simpl.
  - split; auto.
  - destruct (P v) eqn:Hv; simpl.
    + split; [discriminate|]. intros H. inversion H; subst. congruence.
    + rewrite IH. split; [auto|]. intros H. inversion H; subst. assumption.
Qed.

(** X10.  On a list of strings [1_edit_image.py] downloads the first entry
    that starts with [https://], skipping whatever comes before it, and
    raises [IndexError] exactly when no entry starts so. *)
Theorem first_https_selected r us :
  data_field r "generated" = inr (JArr (JStr <$> us)) →
  (∀ u, select_url edit_image r = inr u ↔
        ∃ before after,
          us = before ++ u :: after ∧
          String.prefix "https://" u = true ∧
          Forall (λ v, String.prefix "https://" v = false) before) ∧
  (select_url edit_image r = inl IndexError ↔
   Forall (λ v, String.prefix "https://" v = false) us).
Proof.
  intros Hgen. rewrite (select_url_edit_image r us Hgen). split.
  - intros u. apply first_of_filter.
  - apply first_of_filter_none.
Qed.

Lemma first_https_selected_witness :
  select_url edit_image (ok_json two_locations)
  = inr "https://cdn.example/out.bin".
Proof.
  apply (first_https_selected (ok_json two_locations)
           ["s3://bucket/out.bin"; "https://cdn.example/out.bin"]);
    [reflexivity|].
  exists ["s3://bucket/out.bin"], []. repeat split; repeat constructor.
Defined.

Lemma keep_prefixed_odd pre items v :
  v ∈ items → (∀ u, v ≠ JStr u) → keep_prefixed pre items = inl AttributeError.
Proof.
  intros Hin Hv. induction items as [|x items IH]; [in_list Hin|].
  apply elem_of_cons in Hin as [<-|Hin].
  - destruct v; try reflexivity. destruct (Hv s eq_refl).
  - destruct x; try reflexivity. simpl. rewrite (IH Hin). reflexivity.
Qed.

(** X11.  The list comprehension of [1_edit_image.py] calls [startswith] on
    every entry: one entry that is not a string, wherever it stands, makes it
    raise [AttributeError], even behind a good [https://] entry, and the
    download block ends there without a request. *)
Theorem odd_entry_raises w r p items v :
  data_field r "generated" = inr (JArr items) →
  v ∈ items → (∀ u, v ≠ JStr u) →
  select_url edit_image r = inl AttributeError ∧
  download edit_image w r p =
  (Raised AttributeError,
   extend p (now p) (nreq p) (nsleep p) [(now p, EPrint MsgCompleted)]).
Proof.
  intros Hgen Hin Hv.
  assert (Hsel : select_url edit_image r = inl AttributeError).
  { unfold select_url. rewrite Hgen. cbn [comprehension].
    rewrite (keep_prefixed_odd _ _ _ Hin Hv). reflexivity. }
  split; [exact Hsel|]. unfold download; exec. rewrite Hsel. reflexivity.
Qed.

Lemma odd_entry_raises_witness :
  select_url edit_image odd_entry = inl AttributeError ∧
  download edit_image smooth odd_entry (start smooth) =
  (Raised AttributeError,
   extend (start smooth) 0 0 0 [(0, EPrint MsgCompleted)]).
Proof.
  apply (odd_entry_raises smooth odd_entry (start smooth)
           [JStr "https://x/y.jpg"; JNull] JNull);
    [reflexivity | find_in | discriminate].
Defined.

(** X12.  With nothing to choose from both scripts end the download block
    right after printing [COMPLETED], without a request or a write: with the
    exception of the reading when [data.generated] cannot be read,
    [IndexError] on an empty list, [TypeError] on [null]. *)
Theorem no_location s w r p e :
  data_field r "generated" = inl e ∨
  (data_field r "generated" = inr (JArr []) ∧ e = IndexError) ∨
  (data_field r "generated" = inr JNull ∧ e = TypeError) →
  select_url s r = inl e ∧
  download s w r p =
  (Raised e, extend p (now p) (nreq p) (nsleep p) [(now p, EPrint MsgCompleted)]).
Proof.
  intros H.
  assert (Hsel : select_url s r = inl e).
  { unfold select_url.
    destruct H as [->|[[-> ->]|[-> ->]]]; destruct s; reflexivity. }
  split; [exact Hsel|]. unfold download; exec. rewrite Hsel. reflexivity.
Qed.

Lemma no_location_witness :
  select_url gen_video no_generated = inl KeyError ∧
  download gen_video smooth no_generated (start smooth) =
  (Raised KeyError, extend (start smooth) 0 0 0 [(0, EPrint MsgCompleted)]).
Proof.
  apply (no_location gen_video smooth no_generated (start smooth) KeyError).
  left. reflexivity.
Defined.

Lemma first_of_filter_true (P : string → bool) us u :
  first_of (List.filter P us) = inr u → P u = true.
Proof. intros H. apply first_of_filter in H as (_ & _ & _ & Hu & _). exact Hu. Qed.

(** X13.  On a list of strings that is not empty the two scripts download
    the same location exactly when the first entry starts with [https://]. *)
Theorem scripts_agree_iff r u us :
  data_field r "generated" = inr (JArr (JStr <$> (u :: us))) →
  (select_url edit_image r = select_url gen_video r ↔
   String.prefix "https://" u = true).
Proof.
  intros Hgen.
  rewrite (select_url_edit_image r (u :: us) Hgen).
  rewrite (select_url_gen_video r u us Hgen). split.
  - apply first_of_filter_true.
  - intros Hu. simpl. rewrite Hu. reflexivity.
Qed.

Lemma scripts_agree_iff_witness :
  select_url edit_image (ok_json two_locations)
    = select_url gen_video (ok_json two_locations) ↔
  String.prefix "https://" "s3://bucket/out.bin" = true.
Proof.
  apply (scripts_agree_iff (ok_json two_locations) "s3://bucket/out.bin"
           ["https://cdn.example/out.bin"]).
  reflexivity.
Defined.

(** ** Where the artifact comes from *)

(** X15.  Nothing is written that was not downloaded for a completed job:
    behind every write there is a response, to the submission or to a status
    query, that said [COMPLETED] with code 200, and, if it answered a status
    query, did so within the timeout; the location read is the one the script
    selects from that response, it was answered with 200, and the bytes
    written to [file_name] are its body or a beginning of it. *)
Theorem written_from_completed s w t f data :
  (t, EWrite f data) ∈ trace (run s w) →
  ∃ t0 r0 p0 tq q r url r',
    submit s w (start w) = (Done (t0, r0), p0) ∧
    (tq, ERequest q (Reply r)) ∈ trace (run s w) ∧
    ((∃ pl, q = PostJob (API_URL s) pl) ∨
     ((∃ id, q = GetStatus (API_URL s) id) ∧ tq - t0 ≤ seconds (timeout s))) ∧
    reports_completed r = true ∧
    select_url s r = inr url ∧
    (t, ERequest (GetUrl url) (Reply r')) ∈ trace (run s w) ∧
    status_code r' = 200 ∧
    f = file_name s w ∧
    ∃ n, data = take n (content r').
Proof.
  intros Hin.
  assert (Hpoll0 : Forall polling []) by constructor.
  pose proof (run_cases s w) as Hran.
  remember (run s w) as o eqn:Ho. clear Ho.
  destruct Hran as [e p1 H1|t1 r1 p1 e H1 Hc1 Hmsg|t1 r1 p1 msg H1 Hc1 Hmsg
    |t1 r1 p1 e H1 Hc1 Hjob
    |t1 r1 p1 id st1 e p' evs H1 Hc1 Hid Hst1 Hloop Hlog Hfs' Hpoll Hquiet
    |t1 r1 p1 id st1 l p' evs H1 Hc1 Hid Hst1 Hloop Hlog Hfs' Hpoll Hok Htime Hpast
    |t1 r1 p1 id st1 l p' evs x H1 Hc1 Hid Hst1 Hloop Hlog Hfs' Hpoll Hok Hdone
       Hquiet Hseen Hfetch];
    [destruct (unsubmitted_facts _ _ _ _ H1) as (Hsub & Hfs)
    |destruct (submit_facts _ _ _ _ _ H1) as (Hsub & Hfs & _)..];
    unfold crashed, finish in *; cbn [trace] in *.
  - absurd_event Hsub Hpoll0 Hin.
  - absurd_event Hsub Hpoll0 Hin.
  - absurd_event Hsub Hpoll0 Hin.
  - absurd_event Hsub Hpoll0 Hin.
  - rewrite Hlog in Hin. absurd_event Hsub Hpoll Hin.
  - rewrite Hlog in Hin. absurd_event Hsub Hpoll Hin.
  - (* the download *)
    assert (Hsource : ∃ tq q,
      (tq, ERequest q (Reply (response l))) ∈ log p' ∧
      ((∃ pl, q = PostJob (API_URL s) pl) ∨
       ((∃ id, q = GetStatus (API_URL s) id) ∧ tq - t1 ≤ seconds (timeout s))) ∧
      reports_completed (response l) = true).
    { destruct Hseen as [[-> _]|(tq & Hq & Hcode & Hst & Hwithin)].
      - destruct (submit_posted _ _ _ _ _ H1) as [pl Hpl].
        exists (now p1), (PostJob (API_URL s) pl). rewrite Hlog.
        split; [apply elem_of_app; auto|]. split; [eauto|].
        unfold reports_completed. cbn [response status] in *.
        rewrite Hst1, Hdone. apply andb_true_intro. split; [lia|reflexivity].
      - exists tq, (status_query s id). rewrite Hlog.
        split; [apply elem_of_app; auto|]. split.
        + right. split; [exists id; reflexivity|assumption].
        + unfold reports_completed. rewrite Hst, Hdone.
          apply andb_true_intro. split; [lia|reflexivity]. }
    destruct Hsource as (tq & q & Hq & Hkind & Hrep).
    destruct Hfetch as [e Hurl|url e t' Hurl Hserve Ht|url r' t' Hurl Hserve Hcode Ht
      |url r' t' Hurl Hserve Hcode Hdisk Ht|url r' t' Hurl Hserve Hcode Hdisk Ht
      |url r' t' room Hurl Hserve Hcode Hdisk Hroom Ht];
      cbn [snd log extend] in *;
      try (rewrite Hlog in Hin; absurd_event Hsub Hpoll Hin).
    + assert (Heq : t = t' ∧ f = file_name s w ∧ data = content r').
      { apply elem_of_app in Hin as [Hin|Hin].
        - rewrite Hlog in Hin. absurd_event Hsub Hpoll Hin.
        - in_list Hin. injection Hin as -> -> ->. auto. }
      destruct Heq as (-> & -> & ->).
      exists t1, r1, p1, tq, q, (response l), url, r'.
      split; [exact H1|]. split; [apply elem_of_app; auto|].
      split; [exact Hkind|]. split; [exact Hrep|]. split; [exact Hurl|].
      split; [apply elem_of_app; right; find_in|].
      split; [exact Hcode|]. split; [reflexivity|].
      exists (length (content r')). rewrite take_ge by lia. reflexivity.
    + assert (Heq : t = t' ∧ f = file_name s w ∧ data = take room (content r')).
      { apply elem_of_app in Hin as [Hin|Hin].
        - rewrite Hlog in Hin. absurd_event Hsub Hpoll Hin.
        - in_list Hin. injection Hin as -> -> ->. auto. }
      destruct Heq as (-> & -> & ->).
      exists t1, r1, p1, tq, q, (response l), url, r'.
      split; [exact H1|]. split; [apply elem_of_app; auto|].
      split; [exact Hkind|]. split; [exact Hrep|]. split; [exact Hurl|].
      split; [apply elem_of_app; right; find_in|].
      split; [exact Hcode|]. split; [reflexivity|]. eauto.
Qed.

Lemma written_from_completed_witness :
  ∃ t0 r0 p0 tq q r url r',
    submit edit_image smooth (start smooth) = (Done (t0, r0), p0) ∧
    (tq, ERequest q (Reply r)) ∈ trace (run edit_image smooth) ∧
    ((∃ pl, q = PostJob (API_URL edit_image) pl) ∨
     ((∃ id, q = GetStatus (API_URL edit_image) id) ∧
      tq - t0 ≤ seconds (timeout edit_image))) ∧
    reports_completed r = true ∧
    select_url edit_image r = inr url ∧
    (4000, ERequest (GetUrl url) (Reply r')) ∈ trace (run edit_image smooth) ∧
    status_code r' = 200 ∧
    "/srv/app/generated_image.jpg" = file_name edit_image smooth ∧
    ∃ n, picture = take n (content r').
Proof.
  apply (written_from_completed edit_image smooth 4000
           "/srv/app/generated_image.jpg" picture).
  vm_compute. find_in.
Defined.

(** ** A loop entered too late *)

(** X16.  When the submission alone has outlasted the timeout and the job is
    not completed yet, the loop makes exactly one pass: one status query is
    sent, and whatever it brings, [COMPLETED] included, is dropped for the
    timeout; nothing is written. *)
Theorem late_loop_one_pass s w t0 r p id st :
  submit s w (start w) = (Done (t0, r), p) →
  status_code r = 200 →
  data_field r "task_id" = inr id →
  data_field r "status" = inr st →
  py_eq_str st "COMPLETED" = false →
  seconds (timeout s) < now p - t0 →
  status_queries (trace (run s w)) = 1%nat ∧
  writes (trace (run s w)) = [] ∧
  ¬ printed MsgCompleted (trace (run s w)) ∧
  (exit_status (run s w) = Some 0 → printed MsgTimeout (trace (run s w))).
Proof.
  intros Hsubmit Hcode Hid Hst Hgoing Hlate.
  destruct (submit_facts _ _ _ _ _ Hsubmit) as (Hsub & Hfs & Hclock & _).
  rewrite (run_accepted s w t0 r p id st) by assumption.
  change (budget s) with (S (Z.to_nat (timeout s / interval))).
  rewrite while_loop_pass by exact Hgoing. rewrite tick_eq.
  set (l0 := {| response := r; status := st; generation_ok := true |}).
  pose proof (pass_times w p) as (Ht1 & Ht2 & Ht3).
  assert (Hsec : 0 ≤ seconds interval ∧ 0 ≤ seconds 2) by (cbv; split; discriminate).
  assert (Hquiet : ∀ tail, Forall polling tail →
            ¬ printed MsgCompleted (log p ++ asked s w id l0 p ++ tail)).
  { intros tail Htail Hp.
    assert (Hpoll : Forall polling (asked s w id l0 p ++ tail))
      by (apply Forall_app; split; [apply asked_polling|assumption]).
    apply printed_app in Hp as [Hp|Hp].
    - apply (submitting_printed _ _ Hsub) in Hp. discriminate Hp.
    - apply (polling_printed _ _ Hpoll) in Hp. exact Hp. }
  assert (Hw : ∀ tail, Forall polling tail →
            writes (log p ++ asked s w id l0 p ++ tail) = []).
  { intros tail Htail.
    rewrite !writes_app, submitting_writes, !polling_writes;
      auto using asked_polling. }
  assert (Hraised : ∀ e t nr ns,
    let o := finish (@Raised unit e, extend p t nr ns (asked s w id l0 p)) in
    status_queries (trace o) = 1%nat ∧ writes (trace o) = [] ∧
    ¬ printed MsgCompleted (trace o) ∧
    (exit_status o = Some 0 → printed MsgTimeout (trace o))).
  { intros e t nr ns o. subst o.
    unfold finish, exit_status, extend. cbn [trace ending log fst snd]. split.
    - rewrite status_queries_app, (submitting_queries _ Hsub), asked_queries.
      reflexivity.
    - rewrite <- (app_nil_r (asked s w id l0 p)).
      split; [apply Hw; constructor|]. split; [apply Hquiet; constructor|].
      discriminate. }
  assert (Hchecked : ∀ t l' nr ns tail,
    now p ≤ t → Forall polling tail → status_queries tail = 0%nat →
    let o :=
      match
        match checked s t0 t l' p nr ns (asked s w id l0 p ++ tail) with
        | (Done (Continue l''), p') =>
            while_loop s w (Z.to_nat (timeout s / interval)) t0 id l'' p'
        | (Done (Break l''), p') => (Done l'', p')
        | (Raised e, p') => (Raised e, p')
        | (Starved, p') => (Starved, p')
        end
      with
      | (Done l1, p') =>
          if generation_ok l1 then finish (download s w (response l1) p')
          else finish (Done (), p')
      | (Raised e, p') => finish (Raised e, p')
      | (Starved, p') => finish (Starved, p')
      end in
    status_queries (trace o) = 1%nat ∧ writes (trace o) = [] ∧
    ¬ printed MsgCompleted (trace o) ∧
    (exit_status o = Some 0 → printed MsgTimeout (trace o))).
  { intros t l' nr ns tail Ht Htail Hnone o. subst o. unfold checked.
    replace (seconds (timeout s) <? t - t0) with true by lia.
    cbn [generation_ok]. unfold finish, exit_status, extend.
    cbn [trace ending log fst snd]. rewrite <- !app_assoc.
    assert (Htail' : Forall polling (tail ++ [(t, ETime); (t, EPrint MsgTimeout)]))
      by (apply Forall_app; split; [assumption|repeat constructor]).
    split.
    - rewrite !status_queries_app, (submitting_queries _ Hsub), asked_queries,
        Hnone. reflexivity.
    - split; [apply Hw; assumption|]. split; [apply Hquiet; assumption|].
      intros _. exists t. rewrite !elem_of_app. right; right; right. find_in. }
  destruct (serve w (nreq p) (status_query s id)) as [r'|e]; [|apply Hraised].
  destruct (status_code r' =? 200).
  - destruct (data_field r' "status") as [e|st']; [apply Hraised|].
    rewrite <- (app_nil_r (asked s w id l0 p)).
    apply Hchecked; [lia|constructor|reflexivity].
  - apply Hchecked; [lia|apply excused_polling|reflexivity].
Qed.

Lemma late_loop_one_pass_witness :
  status_queries (trace (run edit_image late_entry)) = 1%nat ∧
  writes (trace (run edit_image late_entry)) = [] ∧
  ¬ printed MsgCompleted (trace (run edit_image late_entry)) ∧
  (exit_status (run edit_image late_entry) = Some 0 →
   printed MsgTimeout (trace (run edit_image late_entry))).
Proof.
  eapply (late_loop_one_pass edit_image late_entry);
    [vm_compute; reflexivity | reflexivity | vm_compute; reflexivity
    | vm_compute; reflexivity | reflexivity | vm_compute; reflexivity].
Defined.

(** ** A refusal that cannot be reported *)

(** X17.  The report of a refused submission reads [message] from the body:
    when the body is no JSON, no dict, or has no [message], the reading
    raises and the run ends with that exception and status 1, the status
    code of the refusal never printed. *)
Theorem rejection_unreported s w t0 r p e :
  submit s w (start w) = (Done (t0, r), p) →
  status_code r ≠ 200 →
  message_of r = inl e →
  ending (run s w) = Raised e ∧
  exit_status (run s w) = Some 1 ∧
  trace (run s w) = log p ∧
  (∀ code msg, ¬ printed (MsgSubmitError code msg) (trace (run s w))) ∧
  (e = JSONDecodeError ∨ e = KeyError ∨ e = TypeError).
Proof.
  intros Hsubmit Hcode Hmsg.
  destruct (submit_facts _ _ _ _ _ Hsubmit) as (Hsub & _).
  assert (Hrun : run s w = crashed e p).
  { unfold run, main, bind. rewrite Hsubmit. cbn [fst snd].
    replace (status_code r =? 200) with false by lia.
    unfold report, bind, lift. rewrite Hmsg. reflexivity. }
  rewrite Hrun. unfold exit_status, crashed. cbn.
  repeat split; auto.
  - intros code msg Hp. apply (submitting_printed _ _ Hsub) in Hp. discriminate.
  - unfold message_of, response_json, getitem in Hmsg.
    destruct (decoded r) as [[| | | | |top]|]; try (injection Hmsg as <-; auto).
    destruct (assoc "message" top); [discriminate|]. injection Hmsg as <-. auto.
Qed.

Lemma rejection_unreported_witness :
  ending (run edit_image bare_rejection) = Raised JSONDecodeError ∧
  exit_status (run edit_image bare_rejection) = Some 1 ∧
  trace (run edit_image bare_rejection)
    = log (submit edit_image bare_rejection (start bare_rejection)).2 ∧
  (∀ code msg,
     ¬ printed (MsgSubmitError code msg) (trace (run edit_image bare_rejection))) ∧
  (JSONDecodeError = JSONDecodeError ∨ JSONDecodeError = KeyError ∨
   JSONDecodeError = TypeError).
Proof.
  apply (rejection_unreported edit_image bare_rejection 0
           {| status_code := 502; content := []; decoded := None |});
    [vm_compute; reflexivity | discriminate | reflexivity].
Defined.

(** ** The status a waiting message shows *)

Lemma waitings_app a b : waitings (a ++ b) = waitings a ++ waitings b.
Proof. apply omap_app. Qed.

Lemma waits_follow_app cur a b :
  waits_follow cur (a ++ b) ↔
  waits_follow cur a ∧ waits_follow (foldl status_after cur a.*2) b.
Proof.
  revert cur. induction a as [|[t e] a IH]; intros cur; cbn.
  - tauto.
  - rewrite IH. tauto.
Qed.

Lemma aside_waits_follow cur tr :
  Forall aside tr →
  waits_follow cur tr ∧ foldl status_after cur tr.*2 = cur ∧ waitings tr = [] ∧
  status_queries tr = 0%nat.
Proof.
  induction 1 as [|[t e] tr H _ IH]; [cbn; auto|].
  destruct e as [[]| | |[]|]; cbv in H; try tauto; cbn; tauto.
Qed.

Lemma submitting_aside tr : Forall submitting tr → Forall aside tr.
Proof.
  intros Hall. eapply Forall_impl; [exact Hall|]. intros [t e] H.
  destruct e as [[]| | |[]|]; cbv in H; try tauto; exact I.
Qed.

Lemma fetched_aside s w r p x :
  fetched s w r p x → ∃ post, log x.2 = log p ++ post ∧ Forall aside post.
Proof.
  destruct 1; cbn [snd log extend]; eexists; (split; [reflexivity|]);
    repeat constructor.
Qed.

(** The loop prints one waiting message for each status query it sends, and
    each shows the status as last assigned. *)
Lemma while_loop_waitings s w t0 id fuel l p0 :
  ∃ evs, log (while_loop s w fuel t0 id l p0).2 = log p0 ++ evs ∧
         waits_follow (status l) evs ∧
         length (waitings evs) = status_queries evs.
Proof.
  set (I := λ (l1 : Loop) (p : Proc),
         ∃ evs, log p = log p0 ++ evs ∧
                waits_follow (status l) evs ∧
                foldl status_after (status l) evs.*2 = status l1 ∧
                length (waitings evs) = status_queries evs).
  set (Q := λ (_ : result Loop) (p : Proc),
         ∃ evs, log p = log p0 ++ evs ∧
                waits_follow (status l) evs ∧
                length (waitings evs) = status_queries evs).
  assert (Hend : ∀ l1 p1, I l1 p1 → ∀ x, Q x p1).
  { intros l1 p1 (evs & Hlog & Hw & _ & Hn) x. exists evs. auto. }
  apply (while_rule s w t0 id I Q);
    [intros l1 p1 HI _; exact (Hend l1 p1 HI _)
    | |intros l1 p1 HI; exact (Hend l1 p1 HI _)|]; unfold I, Q.
  - intros l1 p1 (evs & Hlog & Hw & Hcur & Hn) Hgoing.
    assert (Hasked : ∀ tail,
      Forall aside tail →
      log p1 ++ asked s w id l1 p1 ++ tail
        = log p0 ++ (evs ++ asked s w id l1 p1 ++ tail) ∧
      waits_follow (status l) (evs ++ asked s w id l1 p1 ++ tail) ∧
      foldl status_after (status l) (evs ++ asked s w id l1 p1 ++ tail).*2
        = status_after (status l1)
            (ERequest (status_query s id) (serve w (nreq p1) (status_query s id))) ∧
      length (waitings (evs ++ asked s w id l1 p1 ++ tail))
        = status_queries (evs ++ asked s w id l1 p1 ++ tail)).
    { intros tail Htail.
      destruct (aside_waits_follow
                  (status_after (status l1)
                     (ERequest (status_query s id)
                        (serve w (nreq p1) (status_query s id)))) tail Htail)
        as (Hw' & Hcur' & Hnone & Hnone').
      split; [rewrite Hlog, <- app_assoc; reflexivity|].
      split; [|split].
      - apply waits_follow_app. split; [assumption|]. rewrite Hcur.
        apply waits_follow_app. split; [cbn; auto|]. exact Hw'.
      - rewrite !fmap_app, !foldl_app, Hcur. exact Hcur'.
      - rewrite !waitings_app, !status_queries_app, !length_app, Hn, Hnone,
          Hnone', asked_queries. reflexivity. }
    assert (Hraised : ∀ t nr ns, ∃ evs',
      log (extend p1 t nr ns (asked s w id l1 p1)) = log p0 ++ evs' ∧
      waits_follow (status l) evs' ∧
      length (waitings evs') = status_queries evs').
    { intros t nr ns. exists (evs ++ asked s w id l1 p1 ++ []).
      destruct (Hasked [] ltac:(constructor)) as (H1 & H2 & _ & H4).
      cbn [log extend]. rewrite app_nil_r in *. auto. }
    assert (Hchecked : ∀ t l' nr ns tail,
      Forall aside tail →
      status l' = status_after (status l1)
            (ERequest (status_query s id) (serve w (nreq p1) (status_query s id))) →
      match checked s t0 t l' p1 nr ns (asked s w id l1 p1 ++ tail) with
      | (Done (Continue l''), p') =>
          ∃ evs', log p' = log p0 ++ evs' ∧
            waits_follow (status l) evs' ∧
            foldl status_after (status l) evs'.*2 = status l'' ∧
            length (waitings evs') = status_queries evs'
      | (_, p') =>
          ∃ evs', log p' = log p0 ++ evs' ∧
            waits_follow (status l) evs' ∧
            length (waitings evs') = status_queries evs'
      end).
    { intros t l' nr ns tail Htail Hl'. unfold checked.
      destruct (seconds (timeout s) <? t - t0); cbn [log extend];
        rewrite <- !app_assoc.
      - destruct (Hasked (tail ++ [(t, ETime); (t, EPrint MsgTimeout)]))
          as (H1 & H2 & _ & H4).
        { apply Forall_app. split; [assumption|repeat constructor]. }
        eexists. split; [exact H1|]. auto.
      - destruct (Hasked (tail ++ [(t, ETime)])) as (H1 & H2 & H3 & H4).
        { apply Forall_app. split; [assumption|repeat constructor]. }
        eexists. split; [exact H1|]. rewrite Hl'. auto. }
    rewrite tick_eq. unfold status_after, status_query in Hchecked |- *.
    destruct (serve w (nreq p1) _) as [r|e]; [|apply Hraised].
    destruct (status_code r =? 200).
    + destruct (data_field r "status") as [e|st]; [apply Hraised|].
      rewrite <- (app_nil_r (asked s w id l1 p1)).
      apply Hchecked; [constructor|reflexivity].
    + apply Hchecked; [repeat constructor|reflexivity].
  - exists []. rewrite app_nil_r. cbn. auto.
Qed.

(** X18.  The loop prints one waiting message for each status query it
    sends.  The first shows the status the submission returned, each later
    one the status of the latest status answer with code 200, an answer with
    another code leaving it as it was; none shows [COMPLETED]. *)
Theorem waiting_shows_latest_status s w :
  length (waitings (trace (run s w))) = status_queries (trace (run s w)) ∧
  (waitings (trace (run s w)) = [] ∨
   ∃ t0 r p st,
     submit s w (start w) = (Done (t0, r), p) ∧
     status_code r = 200 ∧
     data_field r "status" = inr st ∧
     waits_follow st (trace (run s w))).
Proof.
  assert (Hloop' : ∀ t1 r1 p1 id st1 x p' evs,
    submit s w (start w) = (Done (t1, r1), p1) →
    status_code r1 = 200 →
    data_field r1 "status" = inr st1 →
    Forall submitting (log p1) →
    while_loop s w (budget s) t1 id
      {| response := r1; status := st1; generation_ok := true |} p1 = (x, p') →
    log p' = log p1 ++ evs →
    ∀ post, Forall aside post →
    length (waitings (log p' ++ post)) = status_queries (log p' ++ post) ∧
    (waitings (log p' ++ post) = [] ∨
     ∃ t0 r p st,
       submit s w (start w) = (Done (t0, r), p) ∧
       status_code r = 200 ∧
       data_field r "status" = inr st ∧
       waits_follow st (log p' ++ post))).
  { intros t1 r1 p1 id st1 x p' evs H1 Hc1 Hst1 Hsub Hloop Hlog post Hpost.
    destruct (while_loop_waitings s w t1 id (budget s)
                {| response := r1; status := st1; generation_ok := true |} p1)
      as (evs' & Hlog' & Hw & Hn).
    rewrite Hloop in Hlog'. cbn [snd status] in *. rewrite Hlog in Hlog'.
    apply app_inv_head in Hlog' as <-.
    destruct (aside_waits_follow st1 (log p1) (submitting_aside _ Hsub))
      as (Hw1 & Hcur1 & Hnone1 & Hq1).
    destruct (aside_waits_follow (foldl status_after st1 evs.*2) post Hpost)
      as (Hw2 & _ & Hnone2 & Hq2).
    rewrite Hlog. split.
    - rewrite !waitings_app, !status_queries_app, !length_app, Hnone1, Hnone2,
        Hq1, Hq2, Hn. reflexivity.
    - right. exists t1, r1, p1, st1. split; [exact H1|]. split; [exact Hc1|].
      split; [exact Hst1|]. rewrite <- app_assoc.
      apply waits_follow_app. split; [exact Hw1|]. rewrite Hcur1.
      apply waits_follow_app. split; [exact Hw|]. exact Hw2. }
  assert (Hnone : ∀ tr, Forall aside tr →
    length (waitings tr) = status_queries tr ∧
    (waitings tr = [] ∨
     ∃ t0 r p st,
       submit s w (start w) = (Done (t0, r), p) ∧
       status_code r = 200 ∧
       data_field r "status" = inr st ∧
       waits_follow st tr)).
  { intros tr Htr.
    destruct (aside_waits_follow JNull tr Htr) as (_ & _ & Hnone & Hq).
    rewrite Hnone, Hq. auto. }
  pose proof (run_cases s w) as Hran.
  remember (run s w) as o eqn:Ho. clear Ho.
  destruct Hran as [e p1 H1|t1 r1 p1 e H1 Hc1 Hmsg|t1 r1 p1 msg H1 Hc1 Hmsg
    |t1 r1 p1 e H1 Hc1 Hjob
    |t1 r1 p1 id st1 e p' evs H1 Hc1 Hid Hst1 Hloop Hlog Hfs' Hpoll Hquiet
    |t1 r1 p1 id st1 l p' evs H1 Hc1 Hid Hst1 Hloop Hlog Hfs' Hpoll Hok Htime Hpast
    |t1 r1 p1 id st1 l p' evs x H1 Hc1 Hid Hst1 Hloop Hlog Hfs' Hpoll Hok Hdone
       Hquiet Hseen Hfetch];
    [destruct (unsubmitted_facts _ _ _ _ H1) as (Hsub & Hfs)
    |destruct (submit_facts _ _ _ _ _ H1) as (Hsub & Hfs & _)..];
    unfold crashed, finish; cbn [trace].
  - apply Hnone, submitting_aside, Hsub.
  - apply Hnone, submitting_aside, Hsub.
  - apply Hnone, Forall_app. split; [apply submitting_aside, Hsub|].
    repeat constructor.
  - apply Hnone, submitting_aside, Hsub.
  - rewrite <- (app_nil_r (log p')).
    eapply (Hloop' t1 r1 p1 id st1); eauto.
  - rewrite <- (app_nil_r (log p')).
    eapply (Hloop' t1 r1 p1 id st1); eauto.
  - destruct (fetched_aside _ _ _ _ _ Hfetch) as (post & -> & Hpost).
    eapply (Hloop' t1 r1 p1 id st1); eauto.
Qed.
